(** * wpm: the typing-session engine of [wpm/game.py]

    A shallow embedding of the text layout functions ([word_wrap],
    [screen_coords]) and of the keystroke state machine of [Game]
    ([handle_key], [reset], [mark_finished], [wpm], [cps], [accuracy]).

    Python values are modelled as follows.
    - [int] is [Z].
    - [str] is a list of code points ([N]); a one-character string is a
      one-element list.
    - [float] is idealised as an exact rational ([Q]); a float division by
      zero raises [ZeroDivisionError], as in Python.
    - A raised exception is a value of [exn]; a function that can raise
      returns a [result]. *)

From Stdlib Require Import String Ascii.
From Stdlib Require Import ZArith NArith List Bool Lia.
From Stdlib Require Import QArith Qminmax.
From Equations Require Import Equations.
Import ListNotations.
Local Open Scope Z_scope.

(** ** Python values *)

Definition char := N.
Definition str := list char.

Inductive exn :=
| ValueError
| IndexError
| TypeError
| ZeroDivisionError
| KeyboardInterrupt
| curses_error.

Inductive result (A : Type) :=
| Ok (a : A)
| Raise (e : exn).
Arguments Ok {A} a.
Arguments Raise {A} e.

(** A string literal of the source, as a list of code points. *)
Definition lit (s : string) : str := map N_of_ascii (list_ascii_of_string s).

Definition SPACE : char := 32%N.
Definition NEWLINE : char := 10%N.
Definition TAB : char := 9%N.

(** [len(s)] *)
Definition len (s : str) : Z := Z.of_nat (length s).

(** [s == t] on strings *)
Fixpoint str_eqb (s t : str) : bool :=
  match s, t with
  | [], [] => true
  | a :: s', b :: t' => N.eqb a b && str_eqb s' t'
  | _, _ => false
  end.

(** The bound of a slice: a negative bound counts from the end, and the
    result is clipped to [0, len(s)]. *)
Definition slice_bound (s : str) (k : Z) : nat :=
  if k <? 0 then Z.to_nat (Z.max 0 (len s + k)) else Z.to_nat k.

(** [s[:k]] *)
Definition slice_to (k : Z) (s : str) : str := firstn (slice_bound s k) s.

(** [s[k:]] *)
Definition slice_from (k : Z) (s : str) : str := skipn (slice_bound s k) s.

(** [s[i]]: a negative index counts from the end; out of range raises
    [IndexError]. *)
Definition str_index (s : str) (i : Z) : result char :=
  let j := if i <? 0 then i + len s else i in
  if (j <? 0) || (len s <=? j) then Raise IndexError
  else match nth_error s (Z.to_nat j) with
       | Some c => Ok c
       | None => Raise IndexError
       end.

(** The highest index of [c] in [s], if any. *)
Fixpoint rfind_char (c : char) (s : str) : option nat :=
  match s with
  | [] => None
  | x :: r =>
      match rfind_char c r with
      | Some i => Some (S i)
      | None => if N.eqb x c then Some O else None
      end
  end.

(** [s.rindex(c)] for a one-character [c]: the highest index of [c], and
    [ValueError] when [c] does not occur ([rindex], unlike [rfind], never
    returns -1). *)
Definition rindex (c : char) (s : str) : result Z :=
  match rfind_char c s with
  | Some i => Ok (Z.of_nat i)
  | None => Raise ValueError
  end.

(** ** Text layout *)

(** Keeps the equation of a matched value in scope (for the termination
    proof of the loop). *)
Definition inspect {A : Type} (a : A) : {b : A | a = b} := exist _ a eq_refl.

(** The body of the [while] loop of [word_wrap], with [lengths] the list
    built so far.  Each iteration strictly shortens [text]. *)
Equations? word_wrap_loop (width : Z) (text : str) (lengths : list Z)
  : result (list Z) by wf (length text) lt :=
word_wrap_loop width text lengths with (len text >? width) := {
  | false =>
      Ok (match text with
          | [] => lengths
          | _ :: _ => lengths ++ [len text]
          end);
  | true with inspect (rindex SPACE (slice_to (width + 1) text)) := {
      | exist _ (Raise e) _ => Raise e;
      | exist _ (Ok end_) Hend with (end_ =? -1) := {
          | true => Ok [len text];
          | false => word_wrap_loop width (slice_from (end_ + 1) text)
                                    (lengths ++ [end_]) } } }.
Proof.
  assert (Hlt : forall c s i, rfind_char c s = Some i -> (i < length s)%nat).
  { intros c s. induction s as [|x r IH]; simpl; intros i H; [discriminate|].
    destruct (rfind_char c r) as [j|].
    - inversion H; subst. specialize (IH j eq_refl). lia.
    - destruct (N.eqb x c); inversion H; subst; lia. }
  unfold rindex in Hend.
  destruct (rfind_char SPACE (slice_to (width + 1) text)) as [i|] eqn:E;
    [|discriminate].
  inversion Hend; subst end_. apply Hlt in E.
  unfold slice_to in E. rewrite length_firstn in E.
  unfold slice_from, slice_bound.
  destruct (Z.of_nat i + 1 <? 0) eqn:F; [apply Z.ltb_lt in F; lia|].
  rewrite length_skipn. lia.
Qed.

(** [word_wrap(text, width)] *)
Definition word_wrap (text : str) (width : Z) : result (list Z) :=
  word_wrap_loop width text [].

(** The [for] loop of [screen_coords]: [y_position] is the loop variable
    as last assigned, [idx] the index [enumerate] yields next. *)
Fixpoint screen_coords_loop (lengths : list Z) (position y_position idx : Z)
  : Z * Z :=
  match lengths with
  | [] => (position, y_position)
  | line_length :: rest =>
      if position <=? line_length then (position, idx)
      else screen_coords_loop rest (position - (line_length + 1)) idx (idx + 1)
  end.

(** [screen_coords(lengths, position)]: the pair (column, row). *)
Definition screen_coords (lengths : list Z) (position : Z) : Z * Z :=
  screen_coords_loop lengths position 0 0.

(** ** Keys

    A key handed to [handle_key] is a Python value: [Screen.get_key] returns
    a [str] (one character, or a key name such as ["KEY_LEFT"]), and the
    constants of [curses] that name keys, such as [curses.KEY_ENTER], are
    [int]s. *)

Inductive pyval :=
| PyStr (s : str)
| PyInt (n : Z).

(** [a == b]: a [str] and an [int] are never equal. *)
Definition py_eqb (a b : pyval) : bool :=
  match a, b with
  | PyStr s, PyStr t => str_eqb s t
  | PyInt n, PyInt m => n =? m
  | _, _ => false
  end.

(** [a in (b1, b2, ...)] *)
Definition py_in (a : pyval) (l : list pyval) : bool := existsb (py_eqb a) l.

(** [len(v)]: an [int] has no length. *)
Definition py_len (v : pyval) : result Z :=
  match v with
  | PyStr s => Ok (len s)
  | PyInt _ => Raise TypeError
  end.

(** [ord(v)]: defined on a string of length one only. *)
Definition py_ord (v : pyval) : result Z :=
  match v with
  | PyStr [c] => Ok (Z.of_N c)
  | _ => Raise TypeError
  end.

(** [s + v] on strings ([s += v]): an [int] cannot be appended. *)
Definition py_concat (s : str) (v : pyval) : result str :=
  match v with
  | PyStr t => Ok (s ++ t)
  | PyInt _ => Raise TypeError
  end.

(** Constants of the [curses] library (its values under ncurses). *)
Definition curses_ascii_ESC : Z := 27.
Definition curses_ascii_BS : Z := 8.
Definition curses_ascii_DEL : Z := 127.
Definition curses_KEY_ENTER : pyval := PyInt 343.

Definition rbind {A B} (r : result A) (k : A -> result B) : result B :=
  match r with
  | Ok a => k a
  | Raise e => Raise e
  end.

Notation "'let?' x ':=' r 'in' k" := (rbind r (fun x => k))
  (at level 10, x name, r at level 100, k at level 200).

(** [Screen.is_escape(key)] *)
Definition is_escape (key : pyval) : result bool :=
  let? n := py_len key in
  if n =? 1 then
    let? c := py_ord key in Ok (c =? curses_ascii_ESC)
  else Ok false.

(** [Screen.is_backspace(key)] *)
Definition is_backspace (key : pyval) : result bool :=
  let? n := py_len key in
  if n >? 1 then Ok (py_eqb key (PyStr (lit "KEY_BACKSPACE")))
  else
    let? c := py_ord key in
    if (c =? curses_ascii_BS) || (c =? curses_ascii_DEL) then Ok true
    else Ok false.

(** ** The session *)

Module Quote.
Record t := {
  text : str;
  author : str;
  title : str;
  text_id : Z
}.
End Quote.

(** The fields of [Game] that the keystroke handler and the metrics read
    or write.  [self.stats], [self.average], [self.screen] and the quote
    iterator are collaborators outside this file's scope. *)
Record Game := {
  tab_spaces : option Z;
  position : Z;
  incorrect : Z;
  total_incorrect : Z;
  start : option Q;
  stop : option Q;
  _edit : str;
  quote : Quote.t
}.

(** What one call of [handle_key] reads from its collaborators: the value
    of [time.time()] where [start] is set and where [stop] is set, and the
    quotes that [self.quotes.next()] and [self.quotes.previous()] return. *)
Record Env := {
  time_start : Q;
  time_stop : Q;
  quotes_next : Quote.t;
  quotes_previous : Quote.t
}.

(** The session fields as [Game.__init__] leaves them, for the first
    quote [q]. *)
Definition new_game (q : Quote.t) : Game :=
  {| tab_spaces := None;
     position := 0;
     incorrect := 0;
     total_incorrect := 0;
     start := None;
     stop := None;
     _edit := [];
     quote := q |}.

(** [Game.set_tab_spaces(spaces)] *)
Definition set_tab_spaces (spaces : option Z) (g : Game) : Game :=
  {| tab_spaces := spaces; position := position g; incorrect := incorrect g;
     total_incorrect := total_incorrect g; start := start g; stop := stop g;
     _edit := _edit g; quote := quote g |}.

(** Stateful code: a computation reads and writes the [Game] and either
    returns a value or raises; what it wrote before raising stays
    written. *)
Definition M (A : Type) : Type := Game -> result A * Game.

Definition ret {A} (a : A) : M A := fun g => (Ok a, g).

Definition raise {A} (e : exn) : M A := fun g => (Raise e, g).

Definition bind {A B} (m : M A) (k : A -> M B) : M B :=
  fun g =>
    match m g with
    | (Ok a, g') => k a g'
    | (Raise e, g') => (Raise e, g')
    end.

Definition get : M Game := fun g => (Ok g, g).

Definition put (g : Game) : M unit := fun _ => (Ok tt, g).

Definition lift {A} (r : result A) : M A := fun g => (r, g).

Notation "x <- m ;; k" := (bind m (fun x => k))
  (at level 61, m at next level, right associativity).
Notation "m ;; k" := (bind m (fun _ => k))
  (at level 61, right associativity).

Definition is_some {A} (o : option A) : bool :=
  match o with Some _ => true | None => false end.

Definition is_none {A} (o : option A) : bool := negb (is_some o).

(** Python's [min(a, b)]: [b] if [b < a], else [a]. *)
Definition py_min (a b : Q) : Q := if Qlt_le_dec b a then b else a.

(** Float division. *)
Definition float_div (a b : Q) : result Q :=
  if Qeq_bool b 0 then Raise ZeroDivisionError else Ok (a / b)%Q.

(** [Game.wpm(elapsed)] *)
Definition wpm (g : Game) (elapsed : Q) : result Q :=
  match start g with
  | None => Ok 0%Q
  | Some _ =>
      let? x := float_div (60 * inject_Z (position g) / 5)%Q elapsed in
      Ok (py_min x 999%Q)
  end.

(** [Game.cps(elapsed)] *)
Definition cps (g : Game) (elapsed : Q) : result Q :=
  match start g with
  | None => Ok 0%Q
  | Some _ =>
      let? x := float_div (inject_Z (position g)) elapsed in
      Ok (py_min x 99%Q)
  end.

(** [Game.elapsed], with [now] the value of [time.time()]. *)
Definition elapsed (now : Q) (g : Game) : Q :=
  match start g with
  | None => 0%Q
  | Some t0 =>
      match stop g with
      | None => (now - t0)%Q
      | Some t1 => (t1 - t0)%Q
      end
  end.

(** [Game.accuracy] *)
Definition accuracy (g : Game) : result Q :=
  match start g with
  | None => Ok 0%Q
  | Some _ =>
      let length := len (Quote.text (quote g)) in
      float_div (inject_Z length) (inject_Z (length + total_incorrect g))
  end.

(** Assignments to the fields of [self]. *)
Definition with_position (v : Z) (g : Game) : Game :=
  {| tab_spaces := tab_spaces g; position := v; incorrect := incorrect g;
     total_incorrect := total_incorrect g; start := start g; stop := stop g;
     _edit := _edit g; quote := quote g |}.

Definition with_incorrect (v : Z) (g : Game) : Game :=
  {| tab_spaces := tab_spaces g; position := position g; incorrect := v;
     total_incorrect := total_incorrect g; start := start g; stop := stop g;
     _edit := _edit g; quote := quote g |}.

Definition with_total_incorrect (v : Z) (g : Game) : Game :=
  {| tab_spaces := tab_spaces g; position := position g;
     incorrect := incorrect g; total_incorrect := v; start := start g;
     stop := stop g; _edit := _edit g; quote := quote g |}.

Definition with_start (v : option Q) (g : Game) : Game :=
  {| tab_spaces := tab_spaces g; position := position g;
     incorrect := incorrect g; total_incorrect := total_incorrect g;
     start := v; stop := stop g; _edit := _edit g; quote := quote g |}.

Definition with_stop (v : option Q) (g : Game) : Game :=
  {| tab_spaces := tab_spaces g; position := position g;
     incorrect := incorrect g; total_incorrect := total_incorrect g;
     start := start g; stop := v; _edit := _edit g; quote := quote g |}.

Definition with_edit (v : str) (g : Game) : Game :=
  {| tab_spaces := tab_spaces g; position := position g;
     incorrect := incorrect g; total_incorrect := total_incorrect g;
     start := start g; stop := stop g; _edit := v; quote := quote g |}.

Definition with_quote (v : Quote.t) (g : Game) : Game :=
  {| tab_spaces := tab_spaces g; position := position g;
     incorrect := incorrect g; total_incorrect := total_incorrect g;
     start := start g; stop := stop g; _edit := _edit g; quote := v |}.

Definition modify (f : Game -> Game) : M unit := fun g => (Ok tt, f g).

(** [Game.reset(direction)]; clearing the screen is not modelled. *)
Definition reset (env : Env) (direction : Z) : M unit :=
  modify (with_start None) ;;
  modify (with_stop None) ;;
  modify (with_position 0) ;;
  modify (with_incorrect 0) ;;
  modify (with_total_incorrect 0) ;;
  modify (with_edit []) ;;
  if negb (direction =? 0) then
    if direction >? 0 then modify (with_quote (quotes_next env))
    else modify (with_quote (quotes_previous env))
  else ret tt.

(** [Game.mark_finished()]: [stop] is set, then the score is computed for
    [self.stats.add]; the statistics store itself is not modelled. *)
Definition mark_finished (env : Env) : M unit :=
  modify (with_stop (Some (time_stop env))) ;;
  g <- get ;;
  _ <- lift (wpm g (elapsed (time_stop env) g)) ;;
  _ <- lift (accuracy g) ;;
  ret tt.

(** [Game.resize()] touches the terminal only. *)
Definition resize : M unit := ret tt.

(** The backspace block of [handle_key]. *)
Definition backspace : M unit :=
  g <- get ;;
  if negb (incorrect g =? 0) then
    modify (with_incorrect (incorrect g - 1)) ;;
    modify (with_edit (slice_to (-1) (_edit g)))
  else
    match _edit g with
    | _ :: _ =>
        modify (with_position (position g - 1)) ;;
        modify (with_edit (slice_to (-1) (_edit g)))
    | [] => ret tt
    end.

(** The key as compared with the quote: [curses.KEY_ENTER] becomes a
    newline, a tab becomes [tab_spaces] spaces when that is configured. *)
Definition normalize (tab : option Z) (key : pyval) : pyval :=
  if py_eqb key curses_KEY_ENTER then PyStr [NEWLINE]
  else
    match tab with
    | Some n =>
        if py_eqb key (PyStr [TAB]) then PyStr (repeat SPACE (Z.to_nat n))
        else key
    | None => key
    end.

(** [self.incorrect == 0 and self.quote.text[self.position] == key]: the
    text is read only when [incorrect] is 0. *)
Definition correct_key (g : Game) (key : pyval) : result bool :=
  if incorrect g =? 0 then
    let? c := str_index (Quote.text (quote g)) (position g) in
    Ok (py_eqb (PyStr [c]) key)
  else Ok false.

(** The last block of [handle_key]: the comparison of the (normalized)
    key with the quote. *)
Definition type_key (env : Env) (key : pyval) : M unit :=
  g <- get ;;
  ok <- lift (correct_key g key) ;;
  if ok then
    modify (with_position (position g + 1)) ;;
    (* Reset edit buffer on a correctly finished word *)
    (if py_eqb key (PyStr [SPACE]) || py_eqb key (PyStr [NEWLINE])
     then modify (with_edit [])
     else e <- lift (py_concat (_edit g) key) ;; modify (with_edit e)) ;;
    (* Finished typing? *)
    g <- get ;;
    if position g =? len (Quote.text (quote g)) then mark_finished env
    else ret tt
  else if incorrect g + position g <? len (Quote.text (quote g)) then
    modify (with_incorrect (incorrect g + 1)) ;;
    modify (with_total_incorrect (total_incorrect g + 1)) ;;
    let key' := if py_eqb key (PyStr [NEWLINE]) then PyStr [SPACE] else key in
    e <- lift (py_concat (_edit g) key') ;;
    modify (with_edit e)
  else ret tt.

(** Browse mode: not started, or finished. *)
Definition browse_mode (g : Game) : bool :=
  is_none (start g) || (is_some (start g) && is_some (stop g)).

Definition nav_keys : list pyval :=
  [PyStr [SPACE]; PyStr (lit "KEY_LEFT"); PyStr (lit "KEY_RIGHT")].

(** [Game.handle_key(key)].  The calls that only draw ([self.screen.clear],
    [self.screen.update]) are not modelled. *)
Definition handle_key (env : Env) (key : pyval) : M unit :=
  if py_eqb key (PyStr (lit "KEY_RESIZE")) then resize
  else
    g <- get ;;
    if browse_mode g && py_in key nav_keys then
      reset env (if py_eqb key (PyStr (lit "KEY_LEFT")) then -1 else 1)
    else
      quit <- (if browse_mode g then lift (is_escape key) else ret false) ;;
      if quit then raise KeyboardInterrupt
      else
        esc <- lift (is_escape key) ;;
        if esc then reset env 0
        else
          bs <- lift (is_backspace key) ;;
          if bs then backspace
          else
            (* Try again? *)
            (if is_some (stop g) then reset env 0 else ret tt) ;;
            (* Start recording upon first ordinary key press *)
            g <- get ;;
            (if is_none (start g) then
               modify (with_start (Some (time_start env)))
             else ret tt) ;;
            type_key env (normalize (tab_spaces g) key).

(** Feeding a sequence of keys, each with what its call reads from the
    collaborators; the state after a call that raised is the state the
    next call sees. *)
Fixpoint handle_keys (keys : list (Env * pyval)) (g : Game) : Game :=
  match keys with
  | [] => g
  | (env, key) :: rest => handle_keys rest (snd (handle_key env key g))
  end.

(** ** Statements about the layout *)

Definition sum_lengths (lengths : list Z) : Z := fold_right Z.add 0 lengths.

Definition line_count (lengths : list Z) : Z := Z.of_nat (length lengths).

(** One separator per line except the last. *)
Definition separators (lengths : list Z) : Z := Z.max 0 (line_count lengths - 1).

(** The (column, row) pair lies inside the wrapped text. *)
Definition in_visual_bounds (lengths : list Z) (xy : Z * Z) : Prop :=
  0 <= snd xy < line_count lengths /\
  0 <= fst xy <= nth (Z.to_nat (snd xy)) lengths 0.

(** ** Statements about the session *)

(** The session as [reset()] leaves it: every counter, the edit buffer and
    both timestamps at their initial values, the quote unchanged. *)
Definition fresh (g : Game) : Game :=
  {| tab_spaces := tab_spaces g;
     position := 0;
     incorrect := 0;
     total_incorrect := 0;
     start := None;
     stop := None;
     _edit := [];
     quote := quote g |}.

(** The state on which an ordinary key is compared with the quote: a
    finished session is reset first, and [start] is set if it was not. *)
Definition begin_typing (env : Env) (g : Game) : Game :=
  let g1 := if is_some (stop g) then fresh g else g in
  if is_none (start g1) then with_start (Some (time_start env)) g1 else g1.

(** Backspace as the specification words it. *)
Definition backspace_spec (g : Game) : Game :=
  if 0 <? incorrect g then
    {| tab_spaces := tab_spaces g;
       position := position g;
       incorrect := incorrect g - 1;
       total_incorrect := total_incorrect g;
       start := start g;
       stop := stop g;
       _edit := removelast (_edit g);
       quote := quote g |}
  else if negb (len (_edit g) =? 0) then
    {| tab_spaces := tab_spaces g;
       position := position g - 1;
       incorrect := incorrect g;
       total_incorrect := total_incorrect g;
       start := start g;
       stop := stop g;
       _edit := removelast (_edit g);
       quote := quote g |}
  else g.

(** A computation returned a number equal to [q]. *)
Definition returns (r : result Q) (q : Q) : Prop :=
  match r with
  | Ok x => x == q
  | Raise _ => False
  end.

(** The metrics as the specification words them. *)
Definition wpm_spec (g : Game) (elapsed : Q) : Q :=
  match start g with
  | None => 0
  | Some _ => Qmin ((60 * inject_Z (position g) / 5) / elapsed) 999
  end.

Definition cps_spec (g : Game) (elapsed : Q) : Q :=
  match start g with
  | None => 0
  | Some _ => Qmin (inject_Z (position g) / elapsed) 99
  end.

Definition env_ok (env : Env) : Prop :=
  Quote.text (quotes_next env) <> [] /\ Quote.text (quotes_previous env) <> [].

(** What every call of [handle_key] preserves on a non-empty quote. *)
Definition session_inv (g : Game) : Prop :=
  Quote.text (quote g) <> [] /\
  0 <= incorrect g /\
  position g + incorrect g <= len (Quote.text (quote g)) /\
  (stop g = None -> incorrect g = 0 ->
   position g < len (Quote.text (quote g))).

(** The session after the character key [s] was accepted as the next
    character of the quote. *)
Definition accepted (env : Env) (s : str) (g : Game) : Game :=
  let g1 :=
    with_edit (if str_eqb s [SPACE] || str_eqb s [NEWLINE] then []
               else _edit g ++ s)
              (with_position (position g + 1) g) in
  if position g + 1 =? len (Quote.text (quote g))
  then with_stop (Some (time_stop env)) g1
  else g1.

(** The session after the key [s] was found wrong: counted, unless the
    quote is covered already. *)
Definition counted_wrong (s : str) (g : Game) : Game :=
  if incorrect g + position g <? len (Quote.text (quote g)) then
    with_edit (_edit g ++ (if str_eqb s [NEWLINE] then [SPACE] else s))
      (with_total_incorrect (total_incorrect g + 1)
         (with_incorrect (incorrect g + 1) g))
  else g.

(** The session after the comparison of the key [s] with the quote. *)
Definition typed (env : Env) (s : str) (g : Game) : Game :=
  if incorrect g =? 0 then
    match str_index (Quote.text (quote g)) (position g) with
    | Raise _ => g
    | Ok c => if str_eqb [c] s then accepted env s g else counted_wrong s g
    end
  else counted_wrong s g.

(** What holds of the session at the head of the loop of [Game.run]: the
    invariant of [handle_key], a session not yet started has nothing
    typed, and a backspace has taken [position] at most one below 0. *)
Definition loop_inv (g : Game) : Prop :=
  session_inv g /\
  (start g = None -> stop g = None ->
   position g = 0 /\ incorrect g = 0 /\ _edit g = []) /\
  (stop g = None ->
   -1 <= position g /\ (position g = -1 -> incorrect g = 0)).

(** ** Sample quotes and key presses *)

(** A quote with the given text. *)
Definition quote_with (t : str) : Quote.t :=
  {| Quote.text := t; Quote.author := []; Quote.title := [];
     Quote.text_id := 0 |}.

Definition quote_of (s : string) : Quote.t := quote_with (lit s).

Definition env0 : Env :=
  {| time_start := 100; time_stop := 110;
     quotes_next := quote_of "next"; quotes_previous := quote_of "previous" |}.

(** One key press, read under [env0]. *)
Definition press (s : string) : Env * pyval := (env0, PyStr (lit s)).
Definition press_backspace : Env * pyval := (env0, PyStr [127%N]).
Definition key_escape : pyval := PyStr [27%N].

(** A call during which the clock does not advance. *)
Definition env_same_time : Env :=
  {| time_start := 100; time_stop := 100;
     quotes_next := quote_of "next"; quotes_previous := quote_of "previous" |}.

(** Sessions reached from a new game by a few key presses. *)
Definition typing_g_x : Game :=
  handle_keys [press "g"; press "x"] (new_game (quote_of "go go")).

Definition typing_g_o : Game :=
  handle_keys [press "g"; press "o"] (new_game (quote_of "go go")).

Definition finished_a : Game :=
  handle_keys [press "a"] (new_game (quote_of "a")).

Definition finished_a_backspace : Game :=
  handle_keys [press "a"; press_backspace] (new_game (quote_of "a")).

Definition before_newline : Game :=
  handle_keys [press "a"]
    (new_game (quote_with (lit "a" ++ [NEWLINE] ++ lit "b"))).

Definition below_start_keys : list (Env * pyval) :=
  [press "a"; press "KEY_LEFT"] ++ repeat press_backspace 9.

Definition below_start : Game :=
  handle_keys below_start_keys (new_game (quote_of "ab")).

(** ** Drawing and input

    The parts of [Screen] and of [Game.run] that compute what is drawn and
    which key is handled.  A drawing call is recorded by its arguments
    (row, column, text); colours and the UTF-8 encoding of the text are
    left out. *)

(** [pad_right(text, width)] *)
Definition pad_right (text : str) (width : Z) : str :=
  if len text <? width then text ++ repeat SPACE (Z.to_nat (width - len text))
  else text.

(** The [for] loop of [Screen.show_quote] and of [Screen.column], from row
    [y] on: the [addstr] calls it makes.  [column] draws left-aligned at
    [x] or right-aligned so that the line ends at [x]. *)
Fixpoint draw_lines (left : bool) (y x : Z) (lengths : list Z) (text : str)
  : list (Z * Z * str) :=
  match lengths with
  | [] => []
  | length :: rest =>
      (y, if left then x else x - length, slice_to length text)
      :: draw_lines left (y + 1) x rest (slice_from (1 + length) text)
  end.

(** [Screen.show_quote(lengths, quote, color)] *)
Definition show_quote (lengths : list Z) (quote : str) : list (Z * Z * str) :=
  draw_lines true 2 0 lengths quote.

(** [Screen.column(y, x, width, text, attr, left)]: the calls made and the
    number of lines returned. *)
Definition column (y x width : Z) (text : str) (left : bool)
  : result (list (Z * Z * str) * Z) :=
  let? lengths := word_wrap text width in
  Ok (draw_lines left y x lengths text, line_count lengths).

(** The text of each drawn line. *)
Definition drawn_text (calls : list (Z * Z * str)) : list str := map snd calls.

(** [" ".join(rows)] *)
Fixpoint join_lines (rows : list str) : str :=
  match rows with
  | [] => []
  | [r] => r
  | r :: rest => r ++ SPACE :: join_lines rest
  end.

(** The cursor that [Screen.update] sets last ([window.move]), given the
    terminal width [cols] and the configured [max_quote_width]; the drawing
    calls made before it are taken to return. *)
Definition update_cursor (cols max_quote_width browse : Z) (quote : str)
  (position incorrect : Z) : result (Z * Z) :=
  let quote_columns :=
    if max_quote_width >? 0 then Z.min cols max_quote_width else cols in
  let? lengths := word_wrap quote (quote_columns - 1) in
  if browse <? 1 then
    let (sx, sy) := screen_coords lengths (position + incorrect) in
    Ok (2 + sy, Z.min sx (quote_columns - 1))
  else Ok (2, 0).

(** More constants of the [curses] library (its values under ncurses). *)
Definition curses_KEY_LEFT : Z := 260.
Definition curses_KEY_RIGHT : Z := 261.
Definition curses_KEY_BACKSPACE : Z := 263.
Definition curses_KEY_RESIZE : Z := 410.

(** What [window.get_wch()] does: it returns a character ([str]) or a key
    code ([int]), or raises [curses.error] (no input) or
    [KeyboardInterrupt]. *)
Inductive get_wch_result :=
| Wch (v : pyval)
| CursesError
| Interrupt.

(** [Screen._get_key_py33()]; [None] is Python's [None]. *)
Definition _get_key_py33 (r : get_wch_result) : result (option pyval) :=
  match r with
  | Wch (PyInt key) =>
      if key =? curses_KEY_LEFT then Ok (Some (PyStr (lit "KEY_LEFT")))
      else if key =? curses_KEY_RIGHT then Ok (Some (PyStr (lit "KEY_RIGHT")))
      else if key =? curses_KEY_RESIZE then Ok (Some (PyStr (lit "KEY_RESIZE")))
      else if key =? curses_KEY_BACKSPACE
           then Ok (Some (PyStr (lit "KEY_BACKSPACE")))
      else Ok None
  | Wch (PyStr s) => Ok (Some (PyStr s))
  | CursesError => Ok None
  | Interrupt => Raise KeyboardInterrupt
  end.

(** The [browse] flag that [Game.run] hands to [Screen.update]. *)
Definition run_browse (g : Game) : Z :=
  let is_typing := is_some (start g) && is_none (stop g) in
  let browse := if negb is_typing then 1 else 0 in
  if is_some (stop g) then 2 else browse.

(** The input half of one iteration of [Game.run] (Python 3.3 and later):
    a key is read and, unless it is [None], handled. *)
Definition run_input (env : Env) (r : get_wch_result) : M unit :=
  key <- lift (_get_key_py33 r) ;;
  match key with
  | Some k => handle_key env k
  | None => ret tt
  end.

(** [window.chgat(y, x, ...)] and [window.move(y, x)]: curses raises
    [curses.error] unless (y, x) is a cell of the window, which has
    [lines] rows and [cols] columns. *)
Definition window_cell (lines cols : Z) (yx : Z * Z) : bool :=
  (0 <=? fst yx) && (fst yx <? lines) && (0 <=? snd yx) && (snd yx <? cols).

(** The cells that [Screen.update] addresses, in the order of its calls:
    the two highlights ([chgat]) of the typing branch, then the cursor
    ([move]). *)
Definition update_cells (cols max_quote_width browse : Z) (quote : str)
  (position incorrect : Z) : result (list (Z * Z)) :=
  let quote_columns :=
    if max_quote_width >? 0 then Z.min cols max_quote_width else cols in
  let? lengths := word_wrap quote (quote_columns - 1) in
  let highlights :=
    if negb (browse =? 0) then []
    else if position <? len quote then
      if position + incorrect <? len quote then
        let (sx1, sy1) := screen_coords lengths (position + incorrect - 1) in
        let (sx2, sy2) := screen_coords lengths (position + incorrect) in
        [(2 + sy1, Z.max sx1 0); (2 + sy2, sx2)]
      else []
    else [] in
  let cursor :=
    if browse <? 1 then
      let (sx, sy) := screen_coords lengths (position + incorrect) in
      (2 + sy, Z.min sx (quote_columns - 1))
    else (2, 0) in
  Ok (highlights ++ [cursor]).

(** [Screen.update(browse, head, quote, position, incorrect, ...)] as far
    as it can fail here: [word_wrap] raises, or a highlight of the typing
    branch or the cursor is addressed outside the window.  The other calls
    (the header, the quote and its author, the prompt line and the
    highlight of the score) are taken to return, so [update] returns here
    whenever it returns in the source. *)
Definition update (lines cols max_quote_width browse : Z) (quote : str)
  (position incorrect : Z) : result unit :=
  let? cells :=
    update_cells cols max_quote_width browse quote position incorrect in
  if forallb (window_cell lines cols) cells then Ok tt
  else Raise curses_error.

(** [Game.get_stats(elapsed)]: the numbers of the status line are computed
    (the formatted text is not modelled). *)
Definition get_stats (g : Game) (elapsed : Q) : result unit :=
  let? w := wpm g elapsed in
  let? c := cps g elapsed in
  let? a := accuracy g in
  Ok tt.

(** What one iteration of the loop of [Game.run] reads from outside: the
    size of the terminal, the two readings of [time.time()] behind the two
    uses of [self.elapsed], what the call of [handle_key] reads, and the
    result of [get_wch]. *)
Record Tick := {
  tick_lines : Z;
  tick_cols : Z;
  now_stats : Q;
  now_wpm : Q;
  tick_env : Env;
  tick_wch : get_wch_result
}.

(** The first half of an iteration of [Game.run]: the arguments of
    [self.screen.update] are computed and the screen is redrawn. *)
Definition run_redraw (max_quote_width : Z) (t : Tick) : M unit :=
  g <- get ;;
  _ <- lift (get_stats g (elapsed (now_stats t) g)) ;;
  _ <- lift (wpm g (elapsed (now_wpm t) g)) ;;
  lift (update (tick_lines t) (tick_cols t) max_quote_width (run_browse g)
          (Quote.text (quote g)) (position g) (incorrect g)).

(** One iteration of the loop of [Game.run]. *)
Definition run_iteration (max_quote_width : Z) (t : Tick) : M unit :=
  run_redraw max_quote_width t ;;
  run_input (tick_env t) (tick_wch t).

(** The loop of [Game.run], for as many iterations as there are ticks; an
    exception ends it. *)
Fixpoint run (max_quote_width : Z) (ticks : list Tick) : M unit :=
  match ticks with
  | [] => ret tt
  | t :: rest => run_iteration max_quote_width t ;; run max_quote_width rest
  end.

(** The sessions at the head of the loop of [Game.run] started on [g0],
    with a quote source that returns non-empty quotes: the screen was
    redrawn, and [get_key] (either implementation) returned [None] or a
    key that [handle_key] handled. *)
Inductive run_reaches (max_quote_width : Z) (g0 : Game) : Game -> Prop :=
| run_start : run_reaches max_quote_width g0 g0
| run_next g t key g' :
    run_reaches max_quote_width g0 g ->
    env_ok (tick_env t) ->
    fst (run_redraw max_quote_width t g) = Ok tt ->
    match key with
    | Some k => handle_key (tick_env t) k g
    | None => (Ok tt, g)
    end = (Ok tt, g') ->
    run_reaches max_quote_width g0 g'.

(** An iteration on an 80 x 24 terminal, one second into the race, that
    reads [r]. *)
Definition tick_reading (r : get_wch_result) : Tick :=
  {| tick_lines := 24; tick_cols := 80; now_stats := 101; now_wpm := 101;
     tick_env := env0; tick_wch := r |}.

(** The session at the head of the loop after the key ["a"] on the quote
    ["ab"]. *)
Definition looped_a : Game :=
  snd (run_iteration 0 (tick_reading (Wch (PyStr (lit "a"))))
         (new_game (quote_of "ab"))).

(** What [get_wch] returns for ["a"], a left arrow and three backspaces. *)
Definition below_start_readings : list get_wch_result :=
  [Wch (PyStr (lit "a")); Wch (PyInt curses_KEY_LEFT)] ++
  repeat (Wch (PyStr [127%N])) 3.

(** Every run of [width + 1] consecutive characters of [text] contains a
    space: no word is longer than [width]. *)
Definition words_fit (width : Z) (text : str) : Prop :=
  forall k : nat,
    (k + Z.to_nat (width + 1) <= length text)%nat ->
    rfind_char SPACE (firstn (Z.to_nat (width + 1)) (skipn k text)) <> None.

(** The keys that type the characters of [text], one key per character,
    each read under its own [Env]. *)
Definition type_text (envs : list Env) (text : str) : list (Env * pyval) :=
  combine envs (map (fun c => PyStr [c]) text).

(** A character that [handle_key] takes as a command in every state. *)
Definition command_char (c : char) : bool :=
  N.eqb c 27 || N.eqb c 8 || N.eqb c 127.

(** * Properties *)

(** ** Slices and [rindex] *)

Lemma rfind_char_lt c s i : rfind_char c s = Some i -> (i < length s)%nat.
Proof.
  revert i; induction s as [|x r IH]; simpl; intros i H; [discriminate|].
  destruct (rfind_char c r) as [j|].
  - inversion H; subst. specialize (IH j eq_refl). lia.
  - destruct (N.eqb x c); inversion H; subst; lia.
Qed.

Lemma rindex_range c s e : rindex c s = Ok e -> 0 <= e < len s.
Proof.
  unfold rindex, len. destruct (rfind_char c s) as [i|] eqn:E; [|discriminate].
  intros H; inversion H; subst. apply rfind_char_lt in E. lia.
Qed.

Lemma slice_to_length_le k s : (length (slice_to k s) <= length s)%nat.
Proof. unfold slice_to. rewrite length_firstn. lia. Qed.

Lemma slice_from_shorter e s :
  0 <= e -> s <> [] -> (length (slice_from (e + 1) s) < length s)%nat.
Proof.
  intros He Hs. unfold slice_from, slice_bound.
  destruct (e + 1 <? 0) eqn:E; [apply Z.ltb_lt in E; lia|].
  rewrite length_skipn. destruct s; [congruence|]. simpl length. lia.
Qed.

Example word_wrap_go_go : word_wrap (lit "go go") 80 = Ok [5].
Proof. reflexivity. Qed.

Example word_wrap_alpha :
  word_wrap (lit "alpha beta gamma zz") 10 = Ok [10; 8].
Proof. reflexivity. Qed.

Example word_wrap_nospace : word_wrap (lit "abcdef") 3 = Raise ValueError.
Proof. reflexivity. Qed.

(** ** Properties of the layout *)

Lemma sum_lengths_app l1 l2 :
  sum_lengths (l1 ++ l2) = sum_lengths l1 + sum_lengths l2.
Proof. induction l1 as [|x l1 IH]; simpl; lia. Qed.

Lemma rfind_char_nth c s i : rfind_char c s = Some i -> nth_error s i = Some c.
Proof.
  revert i; induction s as [|x r IH]; simpl; intros i H; [discriminate|].
  destruct (rfind_char c r) as [j|].
  - inversion H; subst. simpl. now apply IH.
  - destruct (N.eqb_spec x c); inversion H; subst. reflexivity.
Qed.

Lemma last_app_cons {A} (l r : list A) (x d : A) :
  last (l ++ x :: r) d = last (x :: r) d.
Proof.
  induction l as [|y l IH]; [reflexivity|].
  simpl app. rewrite <- IH. simpl. destruct (l ++ x :: r) eqn:E; [|reflexivity].
  destruct l; discriminate.
Qed.

(** What one successful [rindex] of the loop tells about [text]: the break
    is at a space inside the text, and the text splits around it. *)
Lemma rindex_window_split width text end_ :
  rindex SPACE (slice_to (width + 1) text) = Ok end_ ->
  0 <= end_ < len text /\
  text = firstn (Z.to_nat end_) text ++ SPACE :: slice_from (end_ + 1) text /\
  len text = end_ + 1 + len (slice_from (end_ + 1) text).
Proof.
  intros H. pose proof (rindex_range _ _ _ H) as Hr.
  pose proof (slice_to_length_le (width + 1) text) as Hle.
  unfold rindex in H.
  destruct (rfind_char SPACE (slice_to (width + 1) text)) as [i|] eqn:E;
    [|discriminate].
  inversion H; subst end_; clear H.
  apply rfind_char_nth in E. unfold slice_to in E.
  rewrite nth_error_firstn in E.
  destruct (i <? slice_bound text (width + 1))%nat; [|discriminate].
  unfold len in *.
  assert (Hb : slice_bound text (Z.of_nat i + 1) = S i).
  { unfold slice_bound. destruct (Z.of_nat i + 1 <? 0) eqn:F;
      [apply Z.ltb_lt in F|]; lia. }
  unfold slice_from. rewrite Hb, Nat2Z.id.
  split; [lia|]. split.
  - symmetry. now apply firstn_skipn_middle.
  - rewrite length_skipn. lia.
Qed.

Lemma word_wrap_loop_spec width text acc lengths :
  word_wrap_loop width text acc = Ok lengths ->
  exists tail,
    lengths = acc ++ tail /\
    Forall (fun n => 0 <= n) tail /\
    (text = [] <-> tail = []) /\
    (sum_lengths tail + line_count tail = len text \/
     sum_lengths tail + line_count tail = len text + 1) /\
    (text <> [] -> last text SPACE <> SPACE ->
     sum_lengths tail + line_count tail = len text + 1).
Proof.
  revert lengths. funelim (word_wrap_loop width text acc); intros res Hres.
  - (* the loop is over *)
    inversion Hres; subst res; clear Hres.
    destruct text as [|c text].
    + exists []. rewrite app_nil_r. repeat split; auto; try tauto.
    + exists [len (c :: text)]. unfold sum_lengths, line_count, len. simpl length.
      simpl fold_right. repeat split; try discriminate; auto; try lia.
      repeat constructor. lia.
  - discriminate.
  - (* [end == -1] never holds: [rindex] returns an index *)
    pose proof (rindex_range _ _ _ Hend). apply Z.eqb_eq in Heq. lia.
  - (* one more line *)
    destruct (rindex_window_split _ _ _ Hend) as (Hr & Hsplit & Hlen).
    match goal with IH : forall _, _ -> exists _, _ |- _ =>
      destruct (IH res Hres) as (tail & -> & Hpos & Hnil & Hsum & Hlast) end.
    exists (end_ :: tail). rewrite <- app_assoc. simpl app.
    unfold line_count in *. simpl length. simpl sum_lengths.
    split; [reflexivity|]. split; [constructor; [lia|assumption]|].
    split; [split; [intros ->; unfold len in Hr; simpl in Hr; lia|discriminate]|].
    split; [lia|].
    intros _ Hl. rewrite Hsplit, last_app_cons in Hl.
    destruct (slice_from (end_ + 1) text) as [|c rest] eqn:E.
    + simpl in Hl. congruence.
    + assert (Hne : c :: rest <> []) by discriminate.
      specialize (Hlast Hne Hl). lia.
Qed.

(** A text that is not longer than [width] is not wrapped. *)
Lemma word_wrap_short text width :
  len text <= width ->
  word_wrap text width =
  Ok (match text with [] => [] | _ :: _ => [len text] end).
Proof.
  intros H. unfold word_wrap. simp word_wrap_loop.
  assert (E : (len text >? width) = false) by (rewrite Z.gtb_ltb; apply Z.ltb_ge; lia).
  rewrite E. simpl. destruct text; reflexivity.
Qed.

(** C1 (the code at the claim's inputs).  When the text is longer than
    [width] and its first [width + 1] characters contain no space,
    [word_wrap] does not return: [rindex] raises [ValueError], and the
    [end == -1] fallback that follows it is never reached. *)
Theorem word_wrap_no_space_raises text width :
  len text > width ->
  rfind_char SPACE (slice_to (width + 1) text) = None ->
  word_wrap text width = Raise ValueError.
Proof.
  intros H E. unfold word_wrap.
  funelim (word_wrap_loop width text []).
  - rewrite Z.gtb_ltb in Heq. apply Z.ltb_ge in Heq. lia.
  - match goal with R : rindex _ _ = Raise _ |- _ =>
      pose proof R as R'; unfold rindex in R'; rewrite E in R'; inversion R' end.
    reflexivity.
  - match goal with R : rindex _ _ = Ok _ |- _ =>
      pose proof R as R'; unfold rindex in R'; rewrite E in R'; discriminate R' end.
  - match goal with R : rindex _ _ = Ok _ |- _ =>
      pose proof R as R'; unfold rindex in R'; rewrite E in R'; discriminate R' end.
Qed.

Lemma word_wrap_no_space_raises_witness :
  len (lit "abcdef") > 3 /\
  word_wrap (lit "abcdef") 3 = Raise ValueError.
Proof.
  split; [reflexivity|].
  apply (word_wrap_no_space_raises (lit "abcdef") 3); reflexivity.
Defined.

(** C3 as stated fails: the wrap step that ends the text at a trailing
    space consumes a separator after the last line too. *)
Lemma word_wrap_sum_counterexample :
  word_wrap (lit "a ") 1 = Ok [1] /\
  sum_lengths [1] + separators [1] <> len (lit "a ").
Proof. split; [reflexivity|]. vm_compute. discriminate. Qed.

(** C3 (amended).  When [word_wrap] returns, the line lengths and one
    separator per line except the last add up to [len(text)] if the text
    does not end with a space, and to [len(text)] or [len(text) - 1] in
    general (the last wrap step may consume a trailing space); the empty
    text gives no line; a non-empty text that fits in [width] gives the
    single line [len(text)]. *)
Theorem word_wrap_lengths_sum text width :
  0 < width ->
  (forall lengths, word_wrap text width = Ok lengths ->
     (sum_lengths lengths + separators lengths = len text \/
      sum_lengths lengths + separators lengths = len text - 1) /\
     (last text SPACE <> SPACE ->
      sum_lengths lengths + separators lengths = len text)) /\
  (text = [] -> word_wrap text width = Ok []) /\
  (text <> [] -> len text <= width -> word_wrap text width = Ok [len text]).
Proof.
  intros Hw. split; [|split].
  - intros lengths H. unfold word_wrap in H.
    apply word_wrap_loop_spec in H.
    destruct H as (tail & -> & _ & Hnil & Hsum & Hlast). simpl app.
    unfold separators, line_count in *.
    destruct text as [|c text].
    + assert (tail = []) as -> by (now apply Hnil). simpl.
      unfold len; simpl. split; [left; reflexivity|]. congruence.
    + destruct tail as [|l tail]; [destruct Hnil as [_ Hn]; discriminate Hn; reflexivity|].
      simpl length in *. split; [lia|].
      intros Hl. assert (Hne : c :: text <> []) by discriminate.
      specialize (Hlast Hne Hl). lia.
  - intros ->. rewrite word_wrap_short; [reflexivity|]. unfold len; simpl; lia.
  - intros Hne Hle. rewrite word_wrap_short by assumption.
    destruct text; [congruence|reflexivity].
Qed.

Lemma word_wrap_lengths_sum_witness :
  0 < 10 /\
  sum_lengths [10; 8] + separators [10; 8] = len (lit "alpha beta gamma zz").
Proof.
  split; [lia|].
  destruct (word_wrap_lengths_sum (lit "alpha beta gamma zz") 10) as (H & _);
    [lia|].
  destruct (H [10; 8] eq_refl) as (_ & H2).
  apply H2. vm_compute. discriminate.
Defined.

Lemma screen_coords_loop_bounds lengths :
  forall position y_position idx,
  lengths <> [] ->
  Forall (fun n => 0 <= n) lengths ->
  0 <= position <= sum_lengths lengths + line_count lengths ->
  let xy := screen_coords_loop lengths position y_position idx in
  idx <= snd xy < idx + line_count lengths /\
  0 <= fst xy <= nth (Z.to_nat (snd xy - idx)) lengths 0.
Proof.
  induction lengths as [|l rest IH]; intros position y idx Hne Hpos Hrange;
    [congruence|].
  unfold line_count in *. simpl length in *. simpl sum_lengths in Hrange.
  inversion Hpos as [|? ? Hl Hrest]; subst.
  cbn [screen_coords_loop]. destruct (position <=? l) eqn:E.
  - apply Z.leb_le in E. cbn [fst snd]. rewrite Z.sub_diag. simpl. lia.
  - apply Z.leb_gt in E. destruct rest as [|l' rest'].
    + cbn [screen_coords_loop fst snd]. rewrite Z.sub_diag. simpl in *. lia.
    + specialize (IH (position - (l + 1)) idx (idx + 1)).
      cbv zeta in IH. destruct IH as (Hrow & Hcol);
        [discriminate|assumption|simpl sum_lengths in *; simpl length in *; lia|].
      set (xy := screen_coords_loop (l' :: rest') _ _ _) in *.
      split; [simpl length in *; lia|].
      replace (Z.to_nat (snd xy - idx)) with (S (Z.to_nat (snd xy - (idx + 1))))
        by lia.
      exact Hcol.
Qed.

(** C4 as stated fails at the empty text: there is no line, so row 0 is
    not a row of the layout. *)
Lemma screen_coords_empty_counterexample :
  word_wrap [] 1 = Ok [] /\
  0 <= 0 <= len [] /\
  screen_coords [] 0 = (0, 0) /\
  ~ in_visual_bounds [] (screen_coords [] 0).
Proof.
  repeat split; try reflexivity; try (unfold len; simpl; lia).
  unfold in_visual_bounds, line_count. simpl. lia.
Qed.

(** C4 (amended).  For a non-empty text on which [word_wrap] returns, every
    offset from 0 to [len(text)] is mapped to a row of the layout and to a
    column from 0 to the length of that row's line. *)
Theorem screen_coords_in_bounds text width lengths o :
  text <> [] ->
  word_wrap text width = Ok lengths ->
  0 <= o <= len text ->
  in_visual_bounds lengths (screen_coords lengths o).
Proof.
  intros Hne H Ho. unfold word_wrap in H. apply word_wrap_loop_spec in H.
  destruct H as (tail & -> & Hpos & Hnil & Hsum & _). simpl app.
  assert (Ht : tail <> []) by (intros E; apply Hne, Hnil, E).
  pose proof (screen_coords_loop_bounds tail o 0 0 Ht Hpos) as B.
  cbv zeta in B. unfold in_visual_bounds, screen_coords.
  rewrite Z.sub_0_r in B. apply B. lia.
Qed.

Lemma screen_coords_in_bounds_witness :
  lit "alpha beta gamma zz" <> [] /\
  0 <= 19 <= len (lit "alpha beta gamma zz") /\
  in_visual_bounds [10; 8] (screen_coords [10; 8] 19).
Proof.
  assert (Hne : lit "alpha beta gamma zz" <> []) by discriminate.
  assert (Ho : 0 <= 19 <= len (lit "alpha beta gamma zz"))
    by (vm_compute; split; discriminate).
  split; [exact Hne|]. split; [exact Ho|].
  exact (screen_coords_in_bounds (lit "alpha beta gamma zz") 10 [10; 8] 19
           Hne eq_refl Ho).
Defined.

(** ** The keystroke handler *)

Lemma str_eqb_eq s t : str_eqb s t = true <-> s = t.
Proof.
  revert t; induction s as [|a s IH]; destruct t as [|b t]; simpl;
    try (split; [discriminate|congruence]); [tauto|].
  rewrite andb_true_iff, N.eqb_eq, IH. split.
  - intros [-> ->]; reflexivity.
  - intros H; inversion H; auto.
Qed.

Lemma slice_to_drop_last (s : str) : slice_to (-1) s = removelast s.
Proof.
  unfold slice_to, slice_bound, len.
  change (-1 <? 0) with true. cbv iota.
  rewrite removelast_firstn_len. f_equal.
  destruct s as [|c s]; [reflexivity|]. simpl length. simpl Nat.pred. lia.
Qed.

(** The keys that [Screen.is_backspace] accepts. *)
Lemma is_backspace_keys key :
  is_backspace key = Ok true ->
  key = PyStr (lit "KEY_BACKSPACE") \/ key = PyStr [8%N] \/ key = PyStr [127%N].
Proof.
  destruct key as [s|n]; [|discriminate]. unfold is_backspace. simpl py_len.
  simpl rbind. destruct (len s >? 1) eqn:E.
  - intros H; inversion H as [H1]. apply str_eqb_eq in H1. left; congruence.
  - destruct s as [|c [|c' s]]; simpl; try discriminate.
    destruct (Z.of_N c =? curses_ascii_BS) eqn:E1.
    + apply Z.eqb_eq in E1. unfold curses_ascii_BS in E1.
      intros _. right; left. f_equal. f_equal. lia.
    + destruct (Z.of_N c =? curses_ascii_DEL) eqn:E2; [|discriminate].
      apply Z.eqb_eq in E2. unfold curses_ascii_DEL in E2.
      intros _. right; right. f_equal. f_equal. lia.
Qed.

(** The key that [Screen.is_escape] accepts. *)
Lemma is_escape_key key : is_escape key = Ok true -> key = PyStr [27%N].
Proof.
  destruct key as [s|n]; [|discriminate]. unfold is_escape. simpl py_len.
  simpl rbind. destruct s as [|c [|c' s]]; try discriminate.
  - simpl. intros H; inversion H as [H1]. apply Z.eqb_eq in H1.
    unfold curses_ascii_ESC in H1. f_equal. f_equal. lia.
  - unfold len. simpl length.
    replace (Z.of_nat (S (S (length s))) =? 1) with false; [discriminate|].
    symmetry. apply Z.eqb_neq. lia.
Qed.

Lemma backspace_refines g :
  0 <= incorrect g -> backspace g = (Ok tt, backspace_spec g).
Proof.
  intros H.
  unfold backspace, backspace_spec, bind, get, modify, ret, with_incorrect,
    with_position, with_edit.
  simpl. rewrite slice_to_drop_last.
  destruct (incorrect g =? 0) eqn:E.
  - apply Z.eqb_eq in E.
    replace (0 <? incorrect g) with false by (rewrite E; reflexivity).
    simpl. destruct (_edit g) as [|c e] eqn:Ee; reflexivity.
  - apply Z.eqb_neq in E. simpl negb. cbv iota.
    replace (0 <? incorrect g) with true by (symmetry; apply Z.ltb_lt; lia).
    reflexivity.
Qed.

(** A backspace key reaches the backspace block in every state. *)
Lemma handle_key_backspace env key g :
  is_backspace key = Ok true -> handle_key env key g = backspace g.
Proof.
  intros Hk.
  destruct (is_backspace_keys key Hk) as [-> | [-> | ->]];
    unfold handle_key, bind, get, lift, ret; simpl;
    rewrite andb_false_r; destruct (browse_mode g); reflexivity.
Qed.

(** C5.  In every session state a backspace key decrements [incorrect] and
    drops the last character of the edit buffer if [incorrect > 0];
    otherwise, if the edit buffer is not empty, it decrements [position]
    and drops the last character of the edit buffer; otherwise it changes
    nothing.  [total_incorrect] is never changed. *)
Theorem backspace_behaviour env key g :
  is_backspace key = Ok true ->
  0 <= incorrect g ->
  handle_key env key g = (Ok tt, backspace_spec g) /\
  total_incorrect (backspace_spec g) = total_incorrect g.
Proof.
  intros Hk Hi. split.
  - rewrite handle_key_backspace by exact Hk. apply backspace_refines, Hi.
  - unfold backspace_spec.
    destruct (0 <? incorrect g); [reflexivity|].
    destruct (negb (len (_edit g) =? 0)); reflexivity.
Qed.

Lemma backspace_behaviour_witness :
  incorrect typing_g_x = 1 /\
  handle_key env0 (PyStr [127%N]) typing_g_x =
    (Ok tt, backspace_spec typing_g_x) /\
  total_incorrect (backspace_spec typing_g_x) = total_incorrect typing_g_x.
Proof.
  split; [reflexivity|].
  apply (backspace_behaviour env0 (PyStr [127%N]) typing_g_x).
  - reflexivity.
  - vm_compute. discriminate.
Defined.

(** C6 as stated fails: an escape in the Finished state quits, the session
    is not reset. *)
Lemma escape_finished_counterexample :
  stop finished_a <> None /\
  handle_key env0 key_escape finished_a =
    (Raise KeyboardInterrupt, finished_a) /\
  handle_key env0 key_escape finished_a <> (Ok tt, fresh finished_a).
Proof.
  split; [vm_compute; discriminate|]. split; [vm_compute; reflexivity|].
  vm_compute. discriminate.
Qed.

(** C6 (amended).  An escape while Typing ([start] set, [stop] unset)
    resets the session: counters, edit buffer and timestamps return to
    their initial values and the quote is unchanged.  An escape in browse
    mode, that is NotStarted or Finished, means quit: [KeyboardInterrupt]
    is raised to the caller and the session is left as it is. *)
Theorem escape_behaviour env key g :
  is_escape key = Ok true ->
  (start g <> None -> stop g = None ->
   handle_key env key g = (Ok tt, fresh g)) /\
  (start g = None \/ stop g <> None ->
   handle_key env key g = (Raise KeyboardInterrupt, g)).
Proof.
  intros Hk. apply is_escape_key in Hk. subst key.
  unfold handle_key, reset, bind, get, lift, modify, ret, raise, browse_mode,
    is_none.
  simpl. rewrite andb_false_r. split.
  - intros Hs He. destruct (start g); [|congruence]. rewrite He. reflexivity.
  - intros [Hs | He].
    + rewrite Hs. reflexivity.
    + destruct (start g); destruct (stop g); try congruence; reflexivity.
Qed.

Lemma escape_behaviour_witness :
  start typing_g_x <> None /\ stop typing_g_x = None /\
  handle_key env0 key_escape typing_g_x = (Ok tt, fresh typing_g_x).
Proof.
  assert (Hs : start typing_g_x <> None) by (vm_compute; discriminate).
  split; [exact Hs|]. split; [reflexivity|].
  exact (proj1 (escape_behaviour env0 key_escape typing_g_x eq_refl)
           Hs eq_refl).
Defined.

(** Every [str] key differs from the integer [curses.KEY_ENTER]: it is
    compared as it is, except a tab when [tab_spaces] is set. *)
Lemma normalize_str tab s :
  normalize tab (PyStr s) =
  match tab with
  | Some n => if str_eqb s [TAB] then PyStr (repeat SPACE (Z.to_nat n))
              else PyStr s
  | None => PyStr s
  end.
Proof. reflexivity. Qed.

(** The tab half of C7: with [tab_spaces] set to [n], a tab is compared
    as a run of [n] spaces. *)
Lemma normalize_tab n :
  normalize (Some n) (PyStr [TAB]) = PyStr (repeat SPACE (Z.to_nat n)).
Proof. reflexivity. Qed.

(** C7 (the code at the Enter key).  [handle_key(curses.KEY_ENTER)] raises
    [TypeError] in [Screen.is_escape] ([len] of an [int]) in every state
    and changes nothing, so the line that maps [curses.KEY_ENTER] to a
    newline is never reached with a key it matches; a [str] key is never
    equal to [curses.KEY_ENTER], and the key name ["KEY_ENTER"] typed where
    the quote has a newline counts as a wrong key. *)
Theorem key_enter_not_normalized :
  (forall env g, handle_key env curses_KEY_ENTER g = (Raise TypeError, g)) /\
  (forall s, py_eqb (PyStr s) curses_KEY_ENTER = false) /\
  (position before_newline = 1 /\
   str_index (Quote.text (quote before_newline)) (position before_newline) =
     Ok NEWLINE /\
   handle_key env0 curses_KEY_ENTER before_newline =
     (Raise TypeError, before_newline) /\
   position (snd (handle_key env0 (PyStr (lit "KEY_ENTER")) before_newline))
     = 1 /\
   incorrect (snd (handle_key env0 (PyStr (lit "KEY_ENTER")) before_newline))
     = 1).
Proof.
  split; [|split; [reflexivity|]].
  - intros env g. unfold handle_key, bind, get, lift, ret. simpl.
    destruct (browse_mode g); reflexivity.
  - split; [vm_compute; reflexivity|]. split; [vm_compute; reflexivity|].
    split; [vm_compute; reflexivity|]. split; vm_compute; reflexivity.
Qed.

(** ** Metrics *)

Lemma py_min_Qmin a b : py_min a b == Qmin a b.
Proof.
  unfold py_min. destruct (Qlt_le_dec b a) as [H|H].
  - symmetry. apply Q.min_r. apply Qlt_le_weak. exact H.
  - symmetry. apply Q.min_l. exact H.
Qed.

Lemma float_div_defined a b : ~ b == 0 -> float_div a b = Ok (a / b)%Q.
Proof.
  intros H. unfold float_div. destruct (Qeq_bool b 0) eqn:E; [|reflexivity].
  apply Qeq_bool_iff in E. contradiction.
Qed.

(** C9 as stated fails at [elapsed = 0]: once the session has started,
    [wpm(0)] and [cps(0)] divide by zero and raise [ZeroDivisionError]
    instead of returning the minimum.  [handle_key] meets this case when
    the one key of the quote ["a"] is typed and the clock reads the same
    for [start] and [stop]. *)
Lemma wpm_zero_elapsed_counterexample :
  start typing_g_o <> None /\
  wpm typing_g_o 0 = Raise ZeroDivisionError /\
  cps typing_g_o 0 = Raise ZeroDivisionError /\
  ~ returns (wpm typing_g_o 0) (wpm_spec typing_g_o 0) /\
  ~ returns (cps typing_g_o 0) (cps_spec typing_g_o 0) /\
  fst (handle_key env_same_time (PyStr (lit "a")) (new_game (quote_of "a")))
    = Raise ZeroDivisionError.
Proof.
  split; [vm_compute; discriminate|].
  split; [vm_compute; reflexivity|]. split; [vm_compute; reflexivity|].
  split; [vm_compute; tauto|]. split; [vm_compute; tauto|].
  vm_compute; reflexivity.
Qed.

(** C9 (amended).  [wpm(elapsed)] is 0 before the session starts and, for
    [elapsed <> 0], [min((60 * position / 5) / elapsed, 999)] afterwards;
    [cps(elapsed)] is 0 before the session starts and, for [elapsed <> 0],
    [min(position / elapsed, 99)] afterwards. *)
Theorem wpm_cps_formula g elapsed :
  start g = None \/ ~ elapsed == 0 ->
  returns (wpm g elapsed) (wpm_spec g elapsed) /\
  returns (cps g elapsed) (cps_spec g elapsed).
Proof.
  intros H. unfold wpm, cps, wpm_spec, cps_spec.
  destruct (start g) as [t0|].
  - destruct H as [H|H]; [discriminate|].
    rewrite !float_div_defined by exact H. simpl.
    split; apply py_min_Qmin.
  - simpl. split; reflexivity.
Qed.

Lemma wpm_cps_formula_witness :
  ~ 2 == 0 /\
  returns (wpm typing_g_o 2) (wpm_spec typing_g_o 2) /\
  returns (cps typing_g_o 2) (cps_spec typing_g_o 2).
Proof.
  assert (H : ~ 2 == 0) by (intros E; discriminate E).
  split; [exact H|].
  exact (wpm_cps_formula typing_g_o 2 (or_intror H)).
Defined.

Lemma started_zero_elapsed_raises g :
  start g <> None ->
  wpm g 0 = Raise ZeroDivisionError /\ cps g 0 = Raise ZeroDivisionError.
Proof.
  intros H. unfold wpm, cps. destruct (start g); [|congruence].
  split; reflexivity.
Qed.

(** C8.  [accuracy] is 0 before the session starts; afterwards it is
    [len(quote.text) / (len(quote.text) + total_incorrect)], which lies in
    (0, 1] and is 1 exactly when [total_incorrect] is 0. *)
Theorem accuracy_formula g :
  Quote.text (quote g) <> [] ->
  0 <= total_incorrect g ->
  (start g = None -> accuracy g = Ok 0%Q) /\
  (start g <> None ->
   exists a,
     accuracy g = Ok a /\
     a == inject_Z (len (Quote.text (quote g))) /
          inject_Z (len (Quote.text (quote g)) + total_incorrect g) /\
     (0 < a)%Q /\ (a <= 1)%Q /\
     (a == 1 <-> total_incorrect g = 0)).
Proof.
  intros Hq Ht. unfold accuracy. split.
  - intros ->. reflexivity.
  - intros Hs. destruct (start g) as [t0|]; [clear Hs|congruence].
    set (L := len (Quote.text (quote g))).
    set (t := total_incorrect g) in *.
    assert (HL : 0 < L).
    { unfold L, len. destruct (Quote.text (quote g)); [congruence|].
      simpl length. lia. }
    assert (Hd : (0 < inject_Z (L + t))%Q).
    { change 0%Q with (inject_Z 0). rewrite <- Zlt_Qlt. lia. }
    assert (Hd0 : ~ inject_Z (L + t) == 0).
    { intros E. rewrite E in Hd. revert Hd. apply Qlt_irrefl. }
    cbv zeta. rewrite float_div_defined by exact Hd0.
    eexists. split; [reflexivity|]. split; [reflexivity|].
    split; [|split].
    + apply Qlt_shift_div_l; [exact Hd|]. rewrite Qmult_0_l.
      change 0%Q with (inject_Z 0). rewrite <- Zlt_Qlt. exact HL.
    + apply Qle_shift_div_r; [exact Hd|]. rewrite Qmult_1_l.
      rewrite <- Zle_Qle. lia.
    + split.
      * intros E.
        assert (E' : inject_Z L == inject_Z (L + t)).
        { rewrite <- (Qmult_1_l (inject_Z (L + t))), <- E.
          unfold Qdiv. rewrite <- Qmult_assoc, (Qmult_comm (/ _)).
          rewrite Qmult_inv_r by exact Hd0. rewrite Qmult_1_r. reflexivity. }
        unfold Qeq in E'. simpl in E'. lia.
      * intros E. rewrite E, Z.add_0_r in *. unfold Qdiv.
        apply Qmult_inv_r. exact Hd0.
Qed.

Lemma accuracy_formula_witness :
  Quote.text (quote typing_g_x) <> [] /\
  0 <= total_incorrect typing_g_x /\
  start typing_g_x <> None /\
  exists a, accuracy typing_g_x = Ok a /\ (0 < a)%Q /\ (a <= 1)%Q.
Proof.
  set (g := typing_g_x).
  assert (Hq : Quote.text (quote g) <> []) by (vm_compute; discriminate).
  assert (Ht : 0 <= total_incorrect g) by (vm_compute; discriminate).
  assert (Hs : start g <> None) by (vm_compute; discriminate).
  split; [exact Hq|]. split; [exact Ht|]. split; [exact Hs|].
  destruct (proj2 (accuracy_formula g Hq Ht) Hs) as (a & Ha & _ & Hpos & Hle & _).
  exists a. split; [exact Ha|]. split; [exact Hpos|exact Hle].
Defined.

(** ** Invariants of the session *)

Lemma len_pos (s : str) : s <> [] -> 0 < len s.
Proof. destruct s; [congruence|]. unfold len. simpl length. lia. Qed.

Lemma str_index_ok s i c : str_index s i = Ok c -> - len s <= i < len s.
Proof.
  unfold str_index. destruct (i <? 0) eqn:E.
  - apply Z.ltb_lt in E.
    destruct ((i + len s <? 0) || (len s <=? i + len s)) eqn:F; [discriminate|].
    apply orb_false_iff in F. destruct F as [F1 F2].
    apply Z.ltb_ge in F1. lia.
  - apply Z.ltb_ge in E.
    destruct ((i <? 0) || (len s <=? i)) eqn:F; [discriminate|].
    apply orb_false_iff in F. destruct F as [F1 F2].
    apply Z.leb_gt in F2. lia.
Qed.

Lemma new_game_inv q : Quote.text q <> [] -> session_inv (new_game q).
Proof.
  intros H. unfold session_inv, new_game. simpl.
  pose proof (len_pos _ H). repeat split; auto; lia.
Qed.

Lemma reset_inv env d g :
  env_ok env -> session_inv g -> session_inv (snd (reset env d g)).
Proof.
  intros [Hn Hp] (Hq & _).
  unfold reset, bind, modify, ret. simpl.
  pose proof (len_pos _ Hn). pose proof (len_pos _ Hp).
  pose proof (len_pos _ Hq).
  destruct (d =? 0); simpl; [|destruct (d >? 0); simpl];
    unfold session_inv; simpl; repeat split; auto; lia.
Qed.

Lemma backspace_inv g : session_inv g -> session_inv (snd (backspace g)).
Proof.
  intros (Hq & Hi & Hc & Ht).
  unfold backspace, bind, get, modify, ret. simpl.
  destruct (incorrect g =? 0) eqn:E; simpl.
  - apply Z.eqb_eq in E. destruct (_edit g) as [|c e]; simpl;
      unfold session_inv; simpl; repeat split; auto; lia.
  - apply Z.eqb_neq in E. unfold session_inv; simpl.
    repeat split; auto; lia.
Qed.

Lemma mark_finished_state env g :
  snd (mark_finished env g) = with_stop (Some (time_stop env)) g.
Proof.
  unfold mark_finished, bind, get, modify, lift, ret. simpl.
  destruct (wpm _ _); simpl; [|reflexivity].
  destruct (accuracy _); reflexivity.
Qed.

Ltac step := cbv beta iota zeta; cbn [fst snd].

Ltac inv_record :=
  unfold session_inv, with_edit, with_position, with_incorrect,
    with_total_incorrect, with_stop, with_start;
  cbn [quote incorrect position stop];
  repeat split; auto; try lia; try discriminate.

Lemma type_key_inv env key g :
  session_inv g -> session_inv (snd (type_key env key g)).
Proof.
  intros (Hq & Hi & Hc & Ht).
  assert (Hwrong :
    session_inv (snd
      ((if incorrect g + position g <? len (Quote.text (quote g))
        then
          modify (with_incorrect (incorrect g + 1)) ;;
          modify (with_total_incorrect (total_incorrect g + 1)) ;;
          e <- lift (py_concat (_edit g)
                       (if py_eqb key (PyStr [NEWLINE]) then PyStr [SPACE]
                        else key)) ;;
          modify (with_edit e)
        else ret tt) g))).
  { destruct (incorrect g + position g <? len (Quote.text (quote g))) eqn:F.
    - apply Z.ltb_lt in F. unfold bind, modify, lift. step.
      destruct (py_concat _ _); step; inv_record.
    - unfold ret. step. repeat split; auto. }
  unfold type_key. unfold bind at 1. unfold get at 1. step.
  unfold bind at 1. unfold lift at 1. unfold correct_key.
  destruct (incorrect g =? 0) eqn:E; [|exact Hwrong].
  apply Z.eqb_eq in E. unfold rbind.
  destruct (str_index (Quote.text (quote g)) (position g)) as [c|e] eqn:Hx;
    step; [|repeat split; auto].
  apply str_index_ok in Hx.
  destruct (py_eqb (PyStr [c]) key) eqn:Hk; [|exact Hwrong].
  assert (Hkey : exists s, key = PyStr s)
    by (destruct key as [s|n]; [eexists; reflexivity|discriminate Hk]).
  destruct Hkey as [s ->].
  unfold bind, modify, get, lift, py_concat. step.
  destruct (py_eqb (PyStr s) (PyStr [SPACE]) ||
            py_eqb (PyStr s) (PyStr [NEWLINE])); step;
    cbn [position quote with_edit with_position];
    (destruct (position g + 1 =? len (Quote.text (quote g))) eqn:F;
     [rewrite mark_finished_state|apply Z.eqb_neq in F; unfold ret; step];
     inv_record).
Qed.

Lemma handle_key_inv env key g :
  env_ok env -> session_inv g -> session_inv (snd (handle_key env key g)).
Proof.
  intros Henv Hg. unfold handle_key.
  destruct (py_eqb key (PyStr (lit "KEY_RESIZE"))); [exact Hg|].
  unfold bind at 1. unfold get at 1. step.
  destruct (browse_mode g && py_in key nav_keys); [now apply reset_inv|].
  unfold bind at 1.
  assert (Hquit : snd ((if browse_mode g then lift (is_escape key)
                        else ret false) g) = g)
    by (destruct (browse_mode g); reflexivity).
  destruct ((if browse_mode g then lift (is_escape key) else ret false) g)
    as [[quit|e] g1] eqn:Hq; cbn [snd] in Hquit; subst g1; step; [|exact Hg].
  destruct quit; [exact Hg|].
  unfold bind at 1. unfold lift at 1.
  destruct (is_escape key) as [[|]|e]; step;
    [now apply reset_inv| |exact Hg].
  unfold bind at 1. unfold lift at 1.
  destruct (is_backspace key) as [[|]|e]; step;
    [now apply backspace_inv| |exact Hg].
  unfold bind at 1.
  assert (H1 : session_inv (snd ((if is_some (stop g) then reset env 0
                                  else ret tt) g))).
  { destruct (is_some (stop g)); [now apply reset_inv|exact Hg]. }
  assert (H1ok : exists g1, (if is_some (stop g) then reset env 0
                             else ret tt) g = (Ok tt, g1)).
  { destruct (is_some (stop g)); eexists; reflexivity. }
  destruct H1ok as [g1 Hg1]. rewrite Hg1 in *. cbn [snd] in H1. step.
  unfold bind at 1. unfold get at 1. step. unfold bind at 1.
  destruct (is_none (start g1)); unfold modify, ret; step;
    apply type_key_inv; [|exact H1].
  destruct H1 as (? & ? & ? & ?). inv_record.
Qed.

(** The invariant holds after every sequence of keys. *)
Lemma handle_keys_inv keys :
  forall g,
  Forall (fun ek => env_ok (fst ek)) keys ->
  session_inv g -> session_inv (handle_keys keys g).
Proof.
  induction keys as [|[env key] rest IH]; intros g Hk Hg; [exact Hg|].
  inversion Hk; subst. simpl. apply IH; [assumption|].
  apply handle_key_inv; assumption.
Qed.

(** An ordinary key (not a resize, not a navigation key in browse mode,
    not escape, not backspace) reaches the comparison. *)
Lemma handle_key_ordinary env key g :
  py_eqb key (PyStr (lit "KEY_RESIZE")) = false ->
  browse_mode g && py_in key nav_keys = false ->
  is_escape key = Ok false ->
  is_backspace key = Ok false ->
  handle_key env key g =
  type_key env (normalize (tab_spaces g) key) (begin_typing env g).
Proof.
  intros Hr Hn He Hb. unfold handle_key. rewrite Hr.
  unfold bind at 1. unfold get at 1. step. rewrite Hn.
  unfold bind at 1.
  replace ((if browse_mode g then lift (is_escape key) else ret false) g)
    with (@Ok bool false, g)
    by (destruct (browse_mode g); unfold lift, ret; rewrite ?He; reflexivity).
  step. unfold bind at 1. unfold lift at 1. rewrite He. step.
  unfold bind at 1. unfold lift at 1. rewrite Hb. step.
  unfold begin_typing. unfold bind at 1.
  destruct (is_some (stop g)).
  - unfold reset, bind, modify, ret. step.
    change (0 =? 0) with true. cbn [negb]. step.
    unfold get. step.
    change (start (with_edit [] (with_total_incorrect 0 (with_incorrect 0
              (with_position 0 (with_stop None (with_start None g)))))))
      with (@None Q).
    change (start (fresh g)) with (@None Q).
    cbn [is_none is_some negb]. step. f_equal.
  - unfold ret at 1. step. unfold bind at 1. unfold get at 1. step.
    unfold bind at 1.
    destruct (is_none (start g)); unfold modify, ret; step; reflexivity.
Qed.

(** The upper bound at the comparison: there the session is not finished
    and, when the quote is read ([incorrect = 0]), [position] is below
    [len(quote.text)]. *)
Lemma comparison_upper_bound env g :
  session_inv g ->
  let g' := begin_typing env g in
  session_inv g' /\ stop g' = None /\
  (incorrect g' = 0 -> position g' < len (Quote.text (quote g'))).
Proof.
  intros (Hq & Hi & Hc & Ht). pose proof (len_pos _ Hq) as Hl.
  unfold begin_typing, fresh.
  destruct (stop g) as [t1|] eqn:Hs; cbn [is_some is_none negb start].
  - unfold session_inv, with_start.
    cbn [quote incorrect position stop]. repeat split; auto; lia.
  - destruct (start g); cbn [is_some is_none negb];
      unfold session_inv, with_start; cbn [quote incorrect position stop];
      repeat split; auto.
Qed.

(** The last part of C2: while Typing, a key that arrives when the quote
    is fully covered ([position + incorrect = len(quote.text)]) is dropped
    and the session does not change. *)
Lemma covered_key_dropped env key g :
  py_eqb key (PyStr (lit "KEY_RESIZE")) = false ->
  is_escape key = Ok false ->
  is_backspace key = Ok false ->
  start g <> None -> stop g = None ->
  0 < incorrect g ->
  position g + incorrect g = len (Quote.text (quote g)) ->
  handle_key env key g = (Ok tt, g).
Proof.
  intros Hr He Hb Hs Ht Hi Hc.
  assert (Hbrowse : browse_mode g = false).
  { unfold browse_mode, is_none. rewrite Ht.
    destruct (start g); [reflexivity|congruence]. }
  rewrite handle_key_ordinary; auto; [|rewrite Hbrowse; reflexivity].
  unfold begin_typing. rewrite Ht. cbn [is_some].
  destruct (start g) as [t0|]; [|congruence]. cbn [is_none is_some negb].
  unfold type_key, bind, get, lift, correct_key. step.
  replace (incorrect g =? 0) with false by (symmetry; apply Z.eqb_neq; lia).
  step.
  replace (incorrect g + position g <? len (Quote.text (quote g))) with false
    by (symmetry; apply Z.ltb_ge; lia).
  reflexivity.
Qed.

(** A backspace in the Finished state, with characters in the edit
    buffer, lowers [position] and leaves [stop] set. *)
Lemma finished_backspace env key g t1 :
  is_backspace key = Ok true ->
  stop g = Some t1 -> incorrect g = 0 -> _edit g <> [] ->
  let g' := snd (handle_key env key g) in
  stop g' = Some t1 /\ position g' = position g - 1.
Proof.
  intros Hk Hs Hi He. cbv zeta. rewrite handle_key_backspace by exact Hk.
  unfold backspace, bind, get, modify. step. rewrite Hi.
  change (negb (0 =? 0)) with false. step.
  destruct (_edit g) as [|c e]; [congruence|]. step.
  cbn [with_edit with_position stop position]. split; [exact Hs|reflexivity].
Qed.

(** C2 (the code at a backspace in the Finished state).  After the quote
    ["a"] is typed, [stop] is set and [position] is [len(quote.text)]; a
    backspace then lowers [position] to 0 and leaves [stop] set. *)
Theorem backspace_when_finished :
  (stop finished_a = Some 110%Q /\
   position finished_a = len (Quote.text (quote finished_a))) /\
  stop finished_a_backspace = Some 110%Q /\
  incorrect finished_a_backspace = 0 /\
  position finished_a_backspace = 0 /\
  position finished_a_backspace <>
    len (Quote.text (quote finished_a_backspace)).
Proof.
  split; [split; vm_compute; reflexivity|].
  split; [vm_compute; reflexivity|]. split; [vm_compute; reflexivity|].
  split; [vm_compute; reflexivity|]. vm_compute. discriminate.
Qed.

(** [handle_key] called directly, without the redraw of [Game.run] between
    the calls: on the quote ["ab"], after ["a"], a left arrow (one wrong
    key, eight characters in the edit buffer) and nine backspaces,
    [position] is -7; the next ordinary key reads [quote.text[-7]] and
    [IndexError] is raised.  In [Game.run] the redraw stops the loop at
    [position = -1] (see [redraw_stops_below_start]). *)
Theorem index_below_quote_start :
  session_inv below_start /\
  position below_start = -7 /\
  incorrect below_start = 0 /\
  stop below_start = None /\
  str_index (Quote.text (quote below_start)) (position below_start) =
    Raise IndexError /\
  handle_key env0 (PyStr (lit "a")) below_start =
    (Raise IndexError, below_start).
Proof.
  split.
  - unfold below_start. apply handle_keys_inv.
    + repeat constructor; vm_compute; discriminate.
    + apply new_game_inv. discriminate.
  - split; [vm_compute; reflexivity|]. split; [vm_compute; reflexivity|].
    split; [vm_compute; reflexivity|]. split; vm_compute; reflexivity.
Qed.

(** ** The scenarios of the specification *)

(** Typing ["go go"] without a mistake finishes the race with accuracy 1. *)
Example scenario_typed_correctly :
  let g := handle_keys [press "g"; press "o"; press " "; press "g"; press "o"]
             (new_game (quote_of "go go")) in
  word_wrap (Quote.text (quote g)) 80 = Ok [5] /\
  position g = 5 /\ stop g = Some 110%Q /\ returns (accuracy g) 1.
Proof.
  cbv zeta. split; [reflexivity|]. split; [vm_compute; reflexivity|].
  split; vm_compute; reflexivity.
Qed.

(** One wrong key, corrected with a backspace, costs accuracy: 5/6. *)
Example scenario_one_mistake :
  position typing_g_x = 1 /\ incorrect typing_g_x = 1 /\
  total_incorrect typing_g_x = 1 /\
  (let g := handle_keys [press_backspace; press "o"; press " "; press "g";
                         press "o"] typing_g_x in
   stop g = Some 110%Q /\ returns (accuracy g) (5 # 6)).
Proof.
  split; [vm_compute; reflexivity|]. split; [vm_compute; reflexivity|].
  split; [vm_compute; reflexivity|]. cbv zeta.
  split; vm_compute; reflexivity.
Qed.

(** A backspace on a new session changes nothing. *)
Example backspace_on_new_game q :
  handle_key env0 (PyStr [127%N]) (new_game q) = (Ok tt, new_game q).
Proof. reflexivity. Qed.

(** * Further properties *)

(** ** The wrap loop, one step at a time *)

Lemma word_wrap_loop_step width text acc :
  word_wrap_loop width text acc =
  if len text >? width then
    match rindex SPACE (slice_to (width + 1) text) with
    | Raise e => Raise e
    | Ok end_ =>
        if end_ =? -1 then Ok [len text]
        else word_wrap_loop width (slice_from (end_ + 1) text) (acc ++ [end_])
    end
  else Ok (match text with [] => acc | _ :: _ => acc ++ [len text] end).
Proof.
  funelim (word_wrap_loop width text acc).
  - rewrite Heq. reflexivity.
  - rewrite Heq. match goal with R : rindex _ _ = Raise _ |- _ =>
      rewrite R end. reflexivity.
  - rewrite Heq0. match goal with R : rindex _ _ = Ok _ |- _ =>
      rewrite R end. rewrite Heq. reflexivity.
  - rewrite Heq0. match goal with R : rindex _ _ = Ok _ |- _ =>
      rewrite R end. rewrite Heq. reflexivity.
Qed.

(** The list built so far is only extended: the lines found from [text] on
    do not depend on it. *)
Lemma word_wrap_loop_acc width n :
  forall text acc lengths,
  (length text <= n)%nat ->
  word_wrap_loop width text acc = Ok lengths ->
  exists tail,
    lengths = acc ++ tail /\
    forall acc', word_wrap_loop width text acc' = Ok (acc' ++ tail).
Proof.
  induction n as [|n IH]; intros text acc lengths Hn H;
    rewrite word_wrap_loop_step in H.
  - destruct text; [|simpl in Hn; lia].
    destruct (len [] >? width) eqn:E.
    + unfold slice_to in H. rewrite firstn_nil in H. discriminate H.
    + inversion H; subst. exists []. split; [now rewrite app_nil_r|].
      intros acc'. rewrite word_wrap_loop_step, E, app_nil_r. reflexivity.
  - destruct (len text >? width) eqn:E.
    + destruct (rindex SPACE (slice_to (width + 1) text)) as [end_|e] eqn:R;
        [|discriminate].
      pose proof (rindex_range _ _ _ R) as Hr.
      destruct (rindex_window_split _ _ _ R) as (Hr' & _ & Hlen).
      destruct (end_ =? -1) eqn:F; [apply Z.eqb_eq in F; lia|].
      apply IH in H; [|unfold len in Hlen, Hr'; lia].
      destruct H as (tail & -> & Hall).
      exists (end_ :: tail). split; [now rewrite <- app_assoc|].
      intros acc'. rewrite word_wrap_loop_step, E, R, F, Hall.
      now rewrite <- app_assoc.
    + inversion H; subst. destruct text as [|c text].
      * exists []. split; [now rewrite app_nil_r|].
        intros acc'. rewrite word_wrap_loop_step, E, app_nil_r. reflexivity.
      * exists [len (c :: text)]. split; [reflexivity|].
        intros acc'. rewrite word_wrap_loop_step, E. reflexivity.
Qed.

(** How a result of [word_wrap] arises: the text fits, or its first line
    ends at the last space of the first [width + 1] characters and the
    rest is the wrapping of what follows that space. *)
Lemma word_wrap_inv text width lengths :
  word_wrap text width = Ok lengths ->
  (len text <= width /\
   lengths = match text with [] => [] | _ :: _ => [len text] end) \/
  (width < len text /\
   exists end_ rest,
     rindex SPACE (slice_to (width + 1) text) = Ok end_ /\
     lengths = end_ :: rest /\
     word_wrap (slice_from (end_ + 1) text) width = Ok rest).
Proof.
  unfold word_wrap. intros H. rewrite word_wrap_loop_step in H.
  destruct (len text >? width) eqn:E.
  - right. rewrite Z.gtb_ltb in E. apply Z.ltb_lt in E. split; [exact E|].
    destruct (rindex SPACE (slice_to (width + 1) text)) as [end_|e] eqn:R;
      [|discriminate].
    pose proof (rindex_range _ _ _ R) as Hr.
    destruct (end_ =? -1) eqn:F; [apply Z.eqb_eq in F; lia|].
    apply (word_wrap_loop_acc width (length (slice_from (end_ + 1) text)))
      in H; [|lia].
    destruct H as (tail & -> & Hall).
    exists end_, tail. split; [reflexivity|]. split; [reflexivity|].
    exact (Hall []).
  - left. rewrite Z.gtb_ltb in E. apply Z.ltb_ge in E. split; [exact E|].
    inversion H. destruct text; reflexivity.
Qed.

Lemma word_wrap_fit lengths :
  forall text width,
  word_wrap text width = Ok lengths ->
  Forall (fun n => 0 <= n <= width) lengths.
Proof.
  assert (H : forall text width, word_wrap text width = Ok lengths ->
            0 <= width /\ Forall (fun n => 0 <= n <= width) lengths);
    [|intros text width Hw; exact (proj2 (H text width Hw))].
  induction lengths as [|l rest IH]; intros text width H;
    destruct (word_wrap_inv _ _ _ H) as [(Hle & E) | (Hlt & e & r & R & E & Hr)].
  - split; [|constructor]. unfold len in Hle. lia.
  - discriminate E.
  - destruct text as [|c text]; [discriminate E|]. inversion E; subst.
    unfold len in *. split; [lia|]. repeat constructor; lia.
  - inversion E; subst e r. destruct (IH _ _ Hr) as (Hw & Hall).
    split; [exact Hw|]. constructor; [|exact Hall].
    pose proof (rindex_range _ _ _ R) as Hrange.
    unfold len, slice_to, slice_bound in Hrange.
    replace (width + 1 <? 0) with false in Hrange
      by (symmetry; apply Z.ltb_ge; lia).
    rewrite length_firstn in Hrange. lia.
Qed.

(** X1.  Every line that [word_wrap] returns fits: its length is between 0
    and [width]. *)
Theorem word_wrap_lines_fit text width lengths :
  word_wrap text width = Ok lengths ->
  Forall (fun n => 0 <= n <= width) lengths.
Proof. apply word_wrap_fit. Qed.

Lemma word_wrap_lines_fit_witness :
  Forall (fun n => 0 <= n <= 10) [10; 8].
Proof.
  exact (word_wrap_lines_fit (lit "alpha beta gamma zz") 10 [10; 8] eq_refl).
Defined.

Lemma word_wrap_returns_upto width n :
  forall text,
  (length text <= n)%nat ->
  0 <= width ->
  words_fit width text ->
  exists lengths, word_wrap text width = Ok lengths.
Proof.
  unfold word_wrap.
  induction n as [|n IH]; intros text Hn Hw Hfit;
    rewrite word_wrap_loop_step.
  - destruct text; [|simpl in Hn; lia].
    replace (len [] >? width) with false
      by (symmetry; rewrite Z.gtb_ltb; apply Z.ltb_ge; unfold len; simpl; lia).
    eexists; reflexivity.
  - destruct (len text >? width) eqn:E; [|eexists; reflexivity].
    rewrite Z.gtb_ltb in E. apply Z.ltb_lt in E.
    pose proof (Hfit 0%nat) as H0. simpl skipn in H0.
    assert (Hs : slice_to (width + 1) text = firstn (Z.to_nat (width + 1)) text).
    { unfold slice_to, slice_bound.
      replace (width + 1 <? 0) with false by (symmetry; apply Z.ltb_ge; lia).
      reflexivity. }
    unfold rindex. rewrite Hs.
    destruct (rfind_char SPACE (firstn (Z.to_nat (width + 1)) text)) as [i|] eqn:R;
      [|exfalso; apply H0; [unfold len in E; lia|reflexivity]].
    replace (Z.of_nat i =? -1) with false by (symmetry; apply Z.eqb_neq; lia).
    assert (Hb : slice_from (Z.of_nat i + 1) text = skipn (S i) text).
    { unfold slice_from, slice_bound.
      replace (Z.of_nat i + 1 <? 0) with false by (symmetry; apply Z.ltb_ge; lia).
      f_equal. lia. }
    rewrite Hb.
    pose proof (rfind_char_lt _ _ _ R) as Hi. rewrite length_firstn in Hi.
    assert (Hrest : exists lengths,
              word_wrap_loop width (skipn (S i) text) [] = Ok lengths).
    { apply IH; [rewrite length_skipn; lia|exact Hw|].
      intros k Hk. rewrite length_skipn in Hk. rewrite skipn_skipn.
      apply Hfit. lia. }
    destruct Hrest as [lengths Hl].
    destruct (word_wrap_loop_acc width (length (skipn (S i) text)) _ _ _
                (le_n _) Hl) as (tail & _ & Hall).
    rewrite Hall. eexists; reflexivity.
Qed.

(** X2.  [word_wrap] returns (it does not raise) on every text in which no
    word is longer than [width], that is, in which every [width + 1]
    consecutive characters contain a space. *)
Theorem word_wrap_returns_when_words_fit width text :
  0 <= width ->
  words_fit width text ->
  exists lengths, word_wrap text width = Ok lengths.
Proof.
  intros Hw Hfit.
  exact (word_wrap_returns_upto width (length text) text (le_n _) Hw Hfit).
Qed.

Lemma word_wrap_returns_when_words_fit_witness :
  exists lengths, word_wrap (lit "alpha beta gamma zz") 5 = Ok lengths.
Proof.
  apply (word_wrap_returns_when_words_fit 5 (lit "alpha beta gamma zz")).
  - lia.
  - intros k Hk.
    assert (Hk' : (k <= 13)%nat) by (change (k + 6 <= 19)%nat in Hk; lia).
    do 14 (destruct k as [|k]; [vm_compute; discriminate|]). lia.
Defined.

(** ** What is drawn *)

Lemma slice_to_nonneg k (s : str) :
  0 <= k -> slice_to k s = firstn (Z.to_nat k) s.
Proof.
  intros H. unfold slice_to, slice_bound.
  replace (k <? 0) with false by (symmetry; apply Z.ltb_ge; lia). reflexivity.
Qed.

Lemma slice_from_nonneg k (s : str) :
  0 <= k -> slice_from k s = skipn (Z.to_nat k) s.
Proof.
  intros H. unfold slice_from, slice_bound.
  replace (k <? 0) with false by (symmetry; apply Z.ltb_ge; lia). reflexivity.
Qed.

Lemma join_lines_cons r rows :
  rows <> [] -> join_lines (r :: rows) = r ++ SPACE :: join_lines rows.
Proof. destruct rows; [congruence|reflexivity]. Qed.

Lemma drawn_lines_join lengths :
  forall text width left y x,
  word_wrap text width = Ok lengths ->
  let rows := drawn_text (draw_lines left y x lengths text) in
  map len rows = lengths /\
  (join_lines rows = text \/
   (lengths <> [] /\ join_lines rows ++ [SPACE] = text)).
Proof.
  induction lengths as [|l rest IH]; intros text width left y x H; cbv zeta;
    destruct (word_wrap_inv _ _ _ H) as [(Hle & E) | (Hlt & e & r & R & E & Hr)].
  - destruct text; [|discriminate E]. simpl.
    split; [reflexivity|left; reflexivity].
  - discriminate E.
  - destruct text as [|c text]; [discriminate E|]. inversion E; subst.
    unfold drawn_text. cbn [draw_lines map snd].
    rewrite slice_to_nonneg by (unfold len; lia).
    replace (Z.to_nat (len (c :: text))) with (length (c :: text))
      by (unfold len; lia).
    rewrite firstn_all. split; [reflexivity|left; reflexivity].
  - inversion E; subst e r. clear E.
    destruct (rindex_window_split _ _ _ R) as (Hrange & Hsplit & Hlen).
    unfold drawn_text. cbn [draw_lines map snd]. fold (drawn_text
      (draw_lines left (y + 1) x rest (slice_from (1 + l) text))).
    rewrite (Z.add_comm 1 l).
    destruct (IH (slice_from (l + 1) text) width left (y + 1) x Hr)
      as (Hlens & Hjoin).
    set (rows := drawn_text (draw_lines left (y + 1) x rest
                               (slice_from (l + 1) text))) in *.
    rewrite slice_to_nonneg by lia.
    assert (Hfl : len (firstn (Z.to_nat l) text) = l).
    { unfold len in *. rewrite length_firstn. lia. }
    split; [rewrite Hfl, Hlens; reflexivity|].
    destruct rows as [|r0 rows'] eqn:Erows.
    + simpl in Hlens. subst rest.
      destruct Hjoin as [Hj | (Hne & _)]; [|congruence].
      simpl in Hj. right. split; [discriminate|].
      simpl join_lines. rewrite Hsplit at 2. rewrite <- Hj. reflexivity.
    + rewrite join_lines_cons by discriminate.
      destruct Hjoin as [Hj | (_ & Hj)].
      * left. rewrite Hj. symmetry. exact Hsplit.
      * right. split; [discriminate|].
        rewrite <- app_assoc. rewrite <- app_comm_cons. rewrite Hj.
        symmetry. exact Hsplit.
Qed.

(** X3.  The lines that [show_quote] draws from the lengths of [word_wrap]
    have exactly these lengths, and joined with single spaces they give
    the text back, up to one trailing space that the last wrap step
    consumed. *)
Theorem drawn_lines_round_trip text width lengths :
  word_wrap text width = Ok lengths ->
  let rows := drawn_text (show_quote lengths text) in
  map len rows = lengths /\
  (join_lines rows = text \/
   (lengths <> [] /\ join_lines rows ++ [SPACE] = text)).
Proof. intros H. exact (drawn_lines_join lengths text width true 2 0 H). Qed.

Lemma drawn_lines_round_trip_witness :
  map len (drawn_text (show_quote [10; 8] (lit "alpha beta gamma zz")))
    = [10; 8] /\
  (join_lines (drawn_text (show_quote [10; 8] (lit "alpha beta gamma zz")))
     = lit "alpha beta gamma zz" \/
   ([10; 8] <> [] /\
    join_lines (drawn_text (show_quote [10; 8] (lit "alpha beta gamma zz")))
      ++ [SPACE] = lit "alpha beta gamma zz")).
Proof.
  exact (drawn_lines_round_trip (lit "alpha beta gamma zz") 10 [10; 8]
           eq_refl).
Defined.

Lemma coords_point_at_character lengths :
  forall text width o y idx left y0 x0,
  word_wrap text width = Ok lengths ->
  0 <= o < len text ->
  let cr := screen_coords_loop lengths o y idx in
  let k := Z.to_nat (snd cr - idx) in
  let rows := drawn_text (draw_lines left y0 x0 lengths text) in
  idx <= snd cr /\
  (fst cr < nth k lengths 0 ->
   nth_error (nth k rows []) (Z.to_nat (fst cr)) = nth_error text (Z.to_nat o)) /\
  (fst cr = nth k lengths 0 -> nth_error text (Z.to_nat o) = Some SPACE).
Proof.
  induction lengths as [|l rest IH]; intros text width o y idx left y0 x0 H Ho;
    cbv zeta;
    destruct (word_wrap_inv _ _ _ H) as [(Hle & E) | (Hlt & e & r & R & E & Hr)].
  - destruct text; [|discriminate E]. unfold len in Ho. simpl in Ho. lia.
  - discriminate E.
  - destruct text as [|c text]; [discriminate E|]. inversion E; subst.
    cbn [screen_coords_loop].
    replace (o <=? len (c :: text)) with true by (symmetry; apply Z.leb_le; lia).
    cbn [fst snd]. rewrite Z.sub_diag. cbn [Z.to_nat nth].
    split; [lia|]. split; [|lia].
    intros _. unfold drawn_text. cbn [draw_lines map snd nth].
    rewrite slice_to_nonneg by (unfold len; lia).
    replace (Z.to_nat (len (c :: text))) with (length (c :: text))
      by (unfold len; lia).
    rewrite firstn_all. reflexivity.
  - inversion E; subst e r. clear E.
    destruct (rindex_window_split _ _ _ R) as (Hrange & Hsplit & Hlen).
    assert (Hfl : length (firstn (Z.to_nat l) text) = Z.to_nat l).
    { unfold len in *. rewrite length_firstn. lia. }
    cbn [screen_coords_loop]. destruct (o <=? l) eqn:F.
    + apply Z.leb_le in F. cbn [fst snd]. rewrite Z.sub_diag.
      cbn [Z.to_nat nth]. split; [lia|]. split.
      * intros Hlt'. unfold drawn_text. cbn [draw_lines map snd nth].
        rewrite slice_to_nonneg by lia. rewrite nth_error_firstn.
        replace (Z.to_nat o <? Z.to_nat l)%nat with true
          by (symmetry; apply Nat.ltb_lt; lia).
        reflexivity.
      * intros ->. rewrite Hsplit.
        rewrite nth_error_app2 by (rewrite Hfl; lia).
        rewrite Hfl, Nat.sub_diag. reflexivity.
    + apply Z.leb_gt in F.
      assert (Ho' : 0 <= o - (l + 1) < len (slice_from (l + 1) text)) by lia.
      specialize (IH (slice_from (l + 1) text) width (o - (l + 1)) idx
                    (idx + 1) left (y0 + 1) x0 Hr Ho').
      cbv zeta in IH. destruct IH as (Hidx & Hchar & Hsep).
      set (cr := screen_coords_loop rest (o - (l + 1)) idx (idx + 1)) in *.
      assert (Hk : Z.to_nat (snd cr - idx) = S (Z.to_nat (snd cr - (idx + 1))))
        by lia.
      rewrite Hk. cbn [nth].
      assert (Hnth : nth_error (slice_from (l + 1) text)
                       (Z.to_nat (o - (l + 1))) = nth_error text (Z.to_nat o)).
      { rewrite slice_from_nonneg by lia. rewrite nth_error_skipn.
        f_equal. lia. }
      split; [lia|]. split.
      * intros Hlt'. unfold drawn_text. cbn [draw_lines map snd nth].
        rewrite (Z.add_comm 1 l). rewrite <- Hnth. apply Hchar. exact Hlt'.
      * intros Heq. rewrite <- Hnth. apply Hsep. exact Heq.
Qed.

(** Where [screen_coords] stops: on a row of the layout, at a column of
    that row or just past its end, after the rows above and one separator
    for each of them. *)
Lemma coords_offset lengths :
  forall text width o y idx,
  word_wrap text width = Ok lengths ->
  0 <= o < len text ->
  let cr := screen_coords_loop lengths o y idx in
  let k := Z.to_nat (snd cr - idx) in
  idx <= snd cr /\
  (k < length lengths)%nat /\
  0 <= fst cr <= nth k lengths 0 /\
  o = sum_lengths (firstn k lengths) + Z.of_nat k + fst cr.
Proof.
  induction lengths as [|l rest IH]; intros text width o y idx H Ho;
    cbv zeta;
    destruct (word_wrap_inv _ _ _ H) as [(Hle & E) | (Hlt & e & r & R & E & Hr)].
  - destruct text; [|discriminate E]. unfold len in Ho. simpl in Ho. lia.
  - discriminate E.
  - destruct text as [|c text]; [discriminate E|]. inversion E; subst.
    cbn [screen_coords_loop].
    replace (o <=? len (c :: text)) with true by (symmetry; apply Z.leb_le; lia).
    cbn [fst snd]. rewrite Z.sub_diag.
    cbn [Z.to_nat nth firstn sum_lengths fold_right length Z.of_nat]. lia.
  - inversion E; subst e r. clear E.
    destruct (rindex_window_split _ _ _ R) as (Hrange & Hsplit & Hlen).
    cbn [screen_coords_loop]. destruct (o <=? l) eqn:F.
    + apply Z.leb_le in F. cbn [fst snd]. rewrite Z.sub_diag.
      cbn [Z.to_nat nth firstn sum_lengths fold_right length Z.of_nat]. lia.
    + apply Z.leb_gt in F.
      assert (Ho' : 0 <= o - (l + 1) < len (slice_from (l + 1) text)) by lia.
      specialize (IH (slice_from (l + 1) text) width (o - (l + 1)) idx
                    (idx + 1) Hr Ho').
      cbv zeta in IH. destruct IH as (Hidx & Hk' & Hcol & Hoff).
      set (cr := screen_coords_loop rest (o - (l + 1)) idx (idx + 1)) in *.
      assert (Hk : Z.to_nat (snd cr - idx) = S (Z.to_nat (snd cr - (idx + 1))))
        by lia.
      rewrite Hk. cbn [nth firstn length].
      unfold sum_lengths in *. cbn [fold_right].
      split; [lia|]. split; [lia|]. split; [exact Hcol|lia].
Qed.

(** X4.  For an offset [o] inside the text, [screen_coords] on the lengths
    of [word_wrap] returns a row of the layout and a column of that row or
    the one just past its end, namely the ones that lie [o] characters into
    the text (the rows above and one separator for each of them come
    first).  A column inside the row is that of the character [text[o]] in
    the lines that [show_quote] draws; the column just past the end means
    that [text[o]] is the space at which the text was wrapped. *)
Theorem screen_coords_points_at_character text width lengths o :
  word_wrap text width = Ok lengths ->
  0 <= o < len text ->
  let col := fst (screen_coords lengths o) in
  let row := Z.to_nat (snd (screen_coords lengths o)) in
  let rows := drawn_text (show_quote lengths text) in
  (0 <= snd (screen_coords lengths o) /\ (row < length lengths)%nat) /\
  0 <= col <= nth row lengths 0 /\
  o = sum_lengths (firstn row lengths) + Z.of_nat row + col /\
  (col < nth row lengths 0 ->
   nth_error (nth row rows []) (Z.to_nat col) = nth_error text (Z.to_nat o)) /\
  (col = nth row lengths 0 -> nth_error text (Z.to_nat o) = Some SPACE).
Proof.
  intros H Ho. cbv zeta.
  pose proof (coords_point_at_character lengths text width o 0 0 true 2 0 H Ho)
    as P.
  pose proof (coords_offset lengths text width o 0 0 H Ho) as Q.
  cbv zeta in P, Q. rewrite Z.sub_0_r in P, Q.
  destruct Q as (Q1 & Q2 & Q3 & Q4).
  split; [split; assumption|]. split; [exact Q3|]. split; [exact Q4|].
  exact (proj2 P).
Qed.

Lemma screen_coords_points_at_character_witness :
  screen_coords [10; 8] 11 = (0, 1) /\
  11 = sum_lengths (firstn 1 [10; 8]) + 1 + 0 /\
  nth_error (nth 1 (drawn_text (show_quote [10; 8] (lit "alpha beta gamma zz")))
               []) 0
  = nth_error (lit "alpha beta gamma zz") 11.
Proof.
  assert (Ho : 0 <= 11 < len (lit "alpha beta gamma zz"))
    by (vm_compute; split; [discriminate|reflexivity]).
  pose proof (screen_coords_points_at_character (lit "alpha beta gamma zz")
                10 [10; 8] 11 eq_refl Ho) as P.
  cbv zeta in P. destruct P as (_ & _ & Poff & Pchar & _).
  split; [reflexivity|]. split; [exact Poff|]. exact (Pchar eq_refl).
Defined.

(** X5.  [pad_right] never truncates: the result starts with [text], is
    followed by spaces only, and its length is the larger of [len(text)]
    and [width]. *)
Theorem pad_right_spec text width :
  len (pad_right text width) = Z.max (len text) width /\
  firstn (length text) (pad_right text width) = text /\
  Forall (fun c => c = SPACE) (skipn (length text) (pad_right text width)).
Proof.
  unfold pad_right. destruct (len text <? width) eqn:E.
  - apply Z.ltb_lt in E. unfold len in *.
    rewrite length_app, repeat_length.
    rewrite firstn_app, Nat.sub_diag, firstn_all, firstn_O, app_nil_r.
    rewrite skipn_app, Nat.sub_diag, skipn_all, skipn_O, app_nil_l.
    split; [lia|]. split; [reflexivity|].
    apply Forall_forall. intros c Hc. now apply repeat_spec in Hc.
  - apply Z.ltb_ge in E. rewrite firstn_all, skipn_all.
    split; [lia|]. split; [reflexivity|constructor].
Qed.

Lemma draw_lines_rows left x lengths :
  forall y text,
  map (fun call : Z * Z * str => fst (fst call)) (draw_lines left y x lengths text) =
  map (fun i => y + Z.of_nat i) (seq 0 (length lengths)).
Proof.
  induction lengths as [|l rest IH]; intros y text; [reflexivity|].
  cbn [draw_lines map length seq fst]. f_equal; [lia|].
  rewrite IH, <- seq_shift, map_map. apply map_ext. intros i. lia.
Qed.

Lemma draw_lines_columns (left : bool) x lengths :
  forall text width y,
  word_wrap text width = Ok lengths ->
  Forall (fun call : Z * Z * str => snd (fst call) + (if left then 0 else len (snd call)) = x)
         (draw_lines left y x lengths text).
Proof.
  induction lengths as [|l rest IH]; intros text width y H; [constructor|].
  pose proof (drawn_lines_join (l :: rest) text width left y x H) as P.
  cbv zeta in P. destruct P as (Hlen & _).
  unfold drawn_text in Hlen. cbn [draw_lines map snd] in Hlen.
  assert (Hl : len (slice_to l text) = l)
    by exact (f_equal (fun xs => hd 0 xs) Hlen).
  clear Hlen. cbn [draw_lines]. constructor.
  - cbn [fst snd]. rewrite Hl. destruct left; lia.
  - destruct (word_wrap_inv _ _ _ H) as [(Hle & E) | (Hlt & e & r & R & E & Hr)].
    + destruct text as [|c text]; [discriminate E|].
      inversion E; subst. constructor.
    + injection E as El Er. subst e r. rewrite (Z.add_comm 1 l).
      exact (IH _ width (y + 1) Hr).
Qed.

(** X6.  [column] draws one line per row on consecutive rows from [y] and
    returns their number; a left-aligned line starts at column [x] and a
    right-aligned line ends at column [x]. *)
Theorem column_layout y x width text left calls n :
  column y x width text left = Ok (calls, n) ->
  n = Z.of_nat (length calls) /\
  map (fun call : Z * Z * str => fst (fst call)) calls =
    map (fun i => y + Z.of_nat i) (seq 0 (length calls)) /\
  Forall (fun call : Z * Z * str =>
            snd (fst call) + (if left then 0 else len (snd call)) = x) calls.
Proof.
  unfold column. destruct (word_wrap text width) as [lengths|e] eqn:H;
    [|discriminate].
  simpl rbind. intros E. inversion E; subst calls n. clear E.
  assert (Hn : length (draw_lines left y x lengths text) = length lengths).
  { rewrite <- (length_map (fun call : Z * Z * str => fst (fst call))), draw_lines_rows.
    now rewrite length_map, length_seq. }
  split; [unfold line_count; now rewrite Hn|]. split.
  - rewrite Hn. apply draw_lines_rows.
  - exact (draw_lines_columns left x lengths text width y H).
Qed.

Lemma column_layout_witness :
  2 = Z.of_nat (length [(3, 30, lit "alpha beta"); (4, 32, lit "gamma zz")])
  /\
  Forall (fun call : Z * Z * str => snd (fst call) + len (snd call) = 40)
         [(3, 30, lit "alpha beta"); (4, 32, lit "gamma zz")].
Proof.
  destruct (column_layout 3 40 10 (lit "alpha beta gamma zz") false
              [(3, 30, lit "alpha beta"); (4, 32, lit "gamma zz")] 2 eq_refl)
    as (Hn & _ & Hx).
  split; [exact Hn|exact Hx].
Defined.

(** X7.  While typing ([browse] is 0) on a non-empty quote that wraps, with
    [0 <= position] and [position + incorrect <= len(quote)], the cursor
    that [update] sets lies on a drawn row of the quote, at a column
    between 0 and the length of that row's line, and the clipping
    [min(sx, quote_columns - 1)] never changes the column. *)
Theorem update_cursor_in_text cols max_quote_width quote position incorrect y x :
  quote <> [] ->
  0 <= position + incorrect <= len quote ->
  update_cursor cols max_quote_width 0 quote position incorrect = Ok (y, x) ->
  let quote_columns :=
    if max_quote_width >? 0 then Z.min cols max_quote_width else cols in
  exists lengths,
    word_wrap quote (quote_columns - 1) = Ok lengths /\
    (x, y - 2) = screen_coords lengths (position + incorrect) /\
    in_visual_bounds lengths (x, y - 2).
Proof.
  intros Hq Ho. unfold update_cursor. cbv zeta.
  set (qc := if max_quote_width >? 0 then Z.min cols max_quote_width else cols).
  destruct (word_wrap quote (qc - 1)) as [lengths|e] eqn:H; [|discriminate].
  unfold rbind. change (0 <? 1) with true. cbv iota.
  destruct (screen_coords lengths (position + incorrect)) as [sx sy] eqn:C.
  intros E.
  assert (Ey : y = 2 + sy) by congruence.
  assert (Ex : x = Z.min sx (qc - 1)) by congruence.
  clear E. subst y x.
  pose proof (word_wrap_fit lengths quote (qc - 1) H) as Hfit.
  pose proof H as H'. unfold word_wrap in H'. apply word_wrap_loop_spec in H'.
  destruct H' as (tail & Ht & Hpos & Hnil & Hsum & _). simpl in Ht. subst tail.
  assert (Hne : lengths <> []) by (intros E; apply Hq, Hnil, E).
  pose proof (screen_coords_loop_bounds lengths (position + incorrect) 0 0
                Hne Hpos) as B.
  cbv zeta in B. fold (screen_coords lengths (position + incorrect)) in B.
  rewrite C in B. cbn [fst snd] in B. rewrite Z.sub_0_r in B.
  destruct B as (Hrow & Hcol); [lia|].
  assert (Hw : nth (Z.to_nat sy) lengths 0 <= qc - 1).
  { rewrite Forall_forall in Hfit. apply Hfit. apply nth_In.
    unfold line_count in Hrow. lia. }
  exists lengths. split; [reflexivity|].
  replace (2 + sy - 2) with sy by lia.
  replace (Z.min sx (qc - 1)) with sx by lia.
  split; [symmetry; exact C|]. unfold in_visual_bounds. cbn [fst snd]. lia.
Qed.

Lemma update_cursor_in_text_witness :
  exists lengths,
    word_wrap (lit "alpha beta gamma zz") (11 - 1) = Ok lengths /\
    (2, 3 - 2) = screen_coords lengths (12 + 1) /\
    in_visual_bounds lengths (2, 3 - 2).
Proof.
  assert (Hq : lit "alpha beta gamma zz" <> []) by discriminate.
  assert (Ho : 0 <= 12 + 1 <= len (lit "alpha beta gamma zz"))
    by (vm_compute; split; discriminate).
  exact (update_cursor_in_text 80 11 (lit "alpha beta gamma zz") 12 1 3 2
           Hq Ho eq_refl).
Defined.

(** ** Exceptions of the keystroke handler *)

Lemma is_escape_str s : exists b, is_escape (PyStr s) = Ok b.
Proof.
  unfold is_escape. cbn [py_len rbind]. destruct (len s =? 1) eqn:E;
    [|eexists; reflexivity].
  destruct s as [|c [|c' s]]; try (unfold len in E; simpl in E; discriminate E).
  - cbn [py_ord rbind]. eexists; reflexivity.
  - apply Z.eqb_eq in E. unfold len in E. simpl length in E. lia.
Qed.

Lemma is_backspace_str s : s <> [] -> exists b, is_backspace (PyStr s) = Ok b.
Proof.
  intros Hs. unfold is_backspace. cbn [py_len rbind].
  destruct (len s >? 1) eqn:E; [eexists; reflexivity|].
  destruct s as [|c [|c' s]]; [congruence| |].
  - cbn [py_ord rbind].
    destruct ((Z.of_N c =? curses_ascii_BS) || (Z.of_N c =? curses_ascii_DEL));
      eexists; reflexivity.
  - rewrite Z.gtb_ltb in E. apply Z.ltb_ge in E. unfold len in E.
    simpl length in E. lia.
Qed.

Lemma is_escape_raises key e :
  is_escape key = Raise e -> e = TypeError /\ exists n, key = PyInt n.
Proof.
  destruct key as [s|n].
  - destruct (is_escape_str s) as [b Hb]. rewrite Hb. discriminate.
  - intros H. inversion H. split; [reflexivity|eexists; reflexivity].
Qed.

Lemma is_backspace_raises key e :
  is_backspace key = Raise e ->
  e = TypeError /\ ((exists n, key = PyInt n) \/ key = PyStr []).
Proof.
  destruct key as [s|n].
  - destruct s as [|c s].
    + intros H. inversion H. split; [reflexivity|right; reflexivity].
    + destruct (is_backspace_str (c :: s)) as [b Hb]; [discriminate|].
      rewrite Hb. discriminate.
  - intros H. inversion H. split; [reflexivity|left; eexists; reflexivity].
Qed.

(** What [mark_finished] can raise, and that [stop] is set in any case. *)
Lemma mark_finished_raises env g e :
  fst (mark_finished env g) = Raise e -> e = ZeroDivisionError.
Proof.
  unfold mark_finished, bind, get, modify, lift, ret. step.
  unfold wpm, accuracy, float_div, rbind. cbn [start with_stop].
  destruct (start g); step;
    repeat match goal with
           | |- context [Qeq_bool ?a ?b] => destruct (Qeq_bool a b); step
           end; intros H; inversion H; reflexivity.
Qed.

Lemma str_index_raises s i e : str_index s i = Raise e -> e = IndexError.
Proof.
  unfold str_index.
  destruct ((_ <? 0) || (len s <=? _)); [intros H; inversion H; reflexivity|].
  destruct (nth_error s _); intros H; inversion H; reflexivity.
Qed.

Lemma type_key_raises env key g e :
  fst (type_key env key g) = Raise e ->
  e = IndexError \/
  (e = ZeroDivisionError /\
   stop (snd (type_key env key g)) = Some (time_stop env) /\
   position (snd (type_key env key g)) =
     len (Quote.text (quote (snd (type_key env key g))))) \/
  (e = TypeError /\ exists n, key = PyInt n).
Proof.
  assert (Hwrong : forall g',
    (if incorrect g + position g <? len (Quote.text (quote g))
     then
       modify (with_incorrect (incorrect g + 1)) ;;
       modify (with_total_incorrect (total_incorrect g + 1)) ;;
       e <- lift (py_concat (_edit g)
                    (if py_eqb key (PyStr [NEWLINE]) then PyStr [SPACE]
                     else key)) ;;
       modify (with_edit e)
     else ret tt) g = (Raise e, g') ->
    e = TypeError /\ exists n, key = PyInt n).
  { intros g'.
    destruct (incorrect g + position g <? len (Quote.text (quote g)));
      [|discriminate].
    unfold bind, modify, lift. step.
    destruct key as [s|n].
    - destruct (py_eqb (PyStr s) (PyStr [NEWLINE])); discriminate.
    - cbn [py_eqb py_concat]. step. intros H. inversion H.
      split; [reflexivity|eexists; reflexivity]. }
  destruct (type_key env key g) as [r g'] eqn:T. cbn [fst snd]. intros ->.
  unfold type_key in T. unfold bind at 1 in T. unfold get at 1 in T.
  cbv beta iota zeta in T.
  unfold bind at 1 in T. unfold lift at 1 in T. unfold correct_key in T.
  destruct (incorrect g =? 0) eqn:E;
    [|cbv beta iota zeta in T; right; right; exact (Hwrong _ T)].
  unfold rbind in T.
  destruct (str_index (Quote.text (quote g)) (position g)) as [c|e'] eqn:Hx;
    cbv beta iota zeta in T;
    [|inversion T; subst; left; exact (str_index_raises _ _ _ Hx)].
  destruct (py_eqb (PyStr [c]) key) eqn:Hk;
    [|right; right; exact (Hwrong _ T)].
  assert (Hkey : exists s, key = PyStr s)
    by (destruct key as [s|n]; [eexists; reflexivity|discriminate Hk]).
  destruct Hkey as [s ->].
  unfold bind, modify, get, lift, py_concat in T.
  assert (Hfin : forall ed,
            (if position (with_edit ed (with_position (position g + 1) g)) =?
                len (Quote.text (quote (with_edit ed
                                          (with_position (position g + 1) g))))
             then mark_finished env else ret tt)
              (with_edit ed (with_position (position g + 1) g))
            = (Raise e, g') ->
            e = ZeroDivisionError /\
            stop g' = Some (time_stop env) /\
            position g' = len (Quote.text (quote g'))).
  { intros ed. cbn [position quote with_edit with_position].
    destruct (position g + 1 =? len (Quote.text (quote g))) eqn:F;
      [|discriminate].
    apply Z.eqb_eq in F. intros M.
    pose proof (mark_finished_raises env _ e (f_equal fst M)) as He.
    pose proof (f_equal snd M) as Hs. rewrite mark_finished_state in Hs.
    cbn [snd] in Hs. subst g'. cbn [with_stop stop position quote]. auto. }
  right; left.
  destruct (py_eqb (PyStr s) (PyStr [SPACE]) ||
            py_eqb (PyStr s) (PyStr [NEWLINE]));
    cbv beta iota zeta in T; exact (Hfin _ T).
Qed.

Lemma backspace_returns g : fst (backspace g) = Ok tt.
Proof.
  unfold backspace, bind, get, modify, ret. step.
  destruct (negb (incorrect g =? 0)); step; [reflexivity|].
  destruct (_edit g); reflexivity.
Qed.

Lemma reset_returns env d g : fst (reset env d g) = Ok tt.
Proof.
  unfold reset, bind, modify, ret. step.
  destruct (negb (d =? 0)); [destruct (d >? 0)|]; reflexivity.
Qed.

(** Every way in which [handle_key] raises. *)
Lemma handle_key_raises env key g e :
  fst (handle_key env key g) = Raise e ->
  (e = KeyboardInterrupt /\ is_escape key = Ok true /\ browse_mode g = true) \/
  (e = TypeError /\ ((exists n, key = PyInt n) \/ key = PyStr [])) \/
  e = IndexError \/
  (e = ZeroDivisionError /\
   stop (snd (handle_key env key g)) = Some (time_stop env) /\
   position (snd (handle_key env key g)) =
     len (Quote.text (quote (snd (handle_key env key g))))).
Proof.
  destruct (py_eqb key (PyStr (lit "KEY_RESIZE"))) eqn:Hr.
  { unfold handle_key. rewrite Hr. discriminate. }
  destruct (browse_mode g && py_in key nav_keys) eqn:Hn.
  { unfold handle_key. rewrite Hr. unfold bind at 1. unfold get at 1. step.
    rewrite Hn. rewrite reset_returns. discriminate. }
  destruct (is_escape key) as [[|]|e'] eqn:He.
  - (* escape *)
    unfold handle_key. rewrite Hr. unfold bind at 1. unfold get at 1. step.
    rewrite Hn. unfold bind at 1. destruct (browse_mode g) eqn:Hb.
    + unfold lift at 1. rewrite He. step. unfold raise. step.
      intros H. inversion H. left. auto.
    + unfold ret at 1. step. unfold bind at 1. unfold lift at 1.
      rewrite He. step. rewrite reset_returns. discriminate.
  - destruct (is_backspace key) as [[|]|e'] eqn:Hb.
    + rewrite handle_key_backspace by exact Hb. rewrite backspace_returns.
      discriminate.
    + rewrite handle_key_ordinary by assumption. intros H.
      destruct (type_key_raises _ _ _ _ H) as [-> | [(-> & Hs & Hp) | (-> & n & Hk)]].
      * right; right; left. reflexivity.
      * right; right; right. auto.
      * right; left. split; [reflexivity|]. left.
        destruct key as [s|m]; [|eexists; reflexivity].
        rewrite normalize_str in Hk. destruct (tab_spaces g);
          [destruct (str_eqb s [TAB])|]; discriminate Hk.
    + unfold handle_key. rewrite Hr. unfold bind at 1. unfold get at 1. step.
      rewrite Hn. unfold bind at 1.
      replace ((if browse_mode g then lift (is_escape key) else ret false) g)
        with (@Ok bool false, g)
        by (destruct (browse_mode g); unfold lift, ret; rewrite ?He;
            reflexivity).
      step. unfold bind at 1. unfold lift at 1. rewrite He. step.
      unfold bind at 1. unfold lift at 1. rewrite Hb. step.
      intros H. inversion H; subst e'.
      destruct (is_backspace_raises _ _ Hb) as (-> & Hk). right; left. auto.
  - unfold handle_key. rewrite Hr. unfold bind at 1. unfold get at 1. step.
    rewrite Hn. unfold bind at 1.
    destruct (is_escape_raises _ _ He) as (-> & n & ->).
    destruct (browse_mode g); unfold lift, ret; cbn [is_escape py_len rbind];
      step; [|unfold bind; step]; intros H; inversion H; right; left;
      (split; [reflexivity|left; eexists; reflexivity]).
Qed.

(** X8.  Whatever [get_wch] returns, short of an empty string, the input
    half of the main loop does not raise [TypeError]: key codes are turned
    into key names or dropped before [handle_key] sees them. *)
Theorem run_input_no_type_error env r g :
  r <> Wch (PyStr []) ->
  fst (run_input env r g) <> Raise TypeError.
Proof.
  assert (Hstr : forall s, s <> [] ->
            fst (handle_key env (PyStr s) g) <> Raise TypeError).
  { intros s Hs H.
    destruct (handle_key_raises _ _ _ _ H)
      as [(E & _) | [(_ & [(n & E) | E]) | [E | (E & _)]]];
      try discriminate E. inversion E. congruence. }
  intros Hr. unfold run_input, bind, lift.
  destruct r as [[s|n]| |]; cbn [_get_key_py33]; step.
  - apply Hstr. intros ->. congruence.
  - destruct (n =? curses_KEY_LEFT); step; [apply Hstr; discriminate|].
    destruct (n =? curses_KEY_RIGHT); step; [apply Hstr; discriminate|].
    destruct (n =? curses_KEY_RESIZE); step; [apply Hstr; discriminate|].
    destruct (n =? curses_KEY_BACKSPACE); step; [apply Hstr; discriminate|].
    discriminate.
  - discriminate.
  - discriminate.
Qed.

Lemma run_input_no_type_error_witness :
  fst (run_input env0 (Wch curses_KEY_ENTER) typing_g_x) <> Raise TypeError.
Proof.
  apply (run_input_no_type_error env0 (Wch curses_KEY_ENTER) typing_g_x).
  discriminate.
Defined.

(** X9.  [handle_key] raises [KeyboardInterrupt] (the program quits)
    exactly when the key is escape and the session is in browse mode. *)
Theorem quits_only_on_escape_in_browse_mode env key g :
  fst (handle_key env key g) = Raise KeyboardInterrupt <->
  (is_escape key = Ok true /\ browse_mode g = true).
Proof.
  split.
  - intros H.
    destruct (handle_key_raises _ _ _ _ H)
      as [(_ & He & Hb) | [(E & _) | [E | (E & _)]]]; try discriminate E.
    auto.
  - intros (He & Hb). apply is_escape_key in He. subst key.
    unfold browse_mode, is_none, is_some in Hb.
    unfold handle_key, reset, bind, get, lift, modify, ret, raise, browse_mode,
      is_none, is_some.
    simpl. rewrite andb_false_r.
    destruct (start g); [destruct (stop g); [reflexivity|discriminate Hb]|].
    reflexivity.
Qed.

(** X10.  If [handle_key] raises [ZeroDivisionError], the key completed the
    quote: [stop] is set and [position] is [len(quote.text)] all the same. *)
Theorem zero_division_only_when_finishing env key g :
  fst (handle_key env key g) = Raise ZeroDivisionError ->
  stop (snd (handle_key env key g)) = Some (time_stop env) /\
  position (snd (handle_key env key g)) =
    len (Quote.text (quote (snd (handle_key env key g)))).
Proof.
  intros H.
  destruct (handle_key_raises _ _ _ _ H)
    as [(E & _) | [(E & _) | [E | (_ & Hs)]]]; try discriminate E.
  exact Hs.
Qed.

Lemma zero_division_only_when_finishing_witness :
  stop (snd (handle_key env_same_time (PyStr (lit "a"))
               (new_game (quote_of "a")))) = Some 100%Q.
Proof.
  exact (proj1 (zero_division_only_when_finishing env_same_time
                  (PyStr (lit "a")) (new_game (quote_of "a")) eq_refl)).
Defined.

(** X11.  The [browse] flag that [run] gives to the screen agrees with the
    browse mode of [handle_key]: it is 0 exactly when keys are typed into
    the quote, 2 exactly when [stop] is set, and 1 otherwise. *)
Theorem run_browse_agrees g :
  (run_browse g = 0 <-> browse_mode g = false) /\
  (run_browse g = 2 <-> stop g <> None) /\
  (run_browse g = 0 \/ run_browse g = 1 \/ run_browse g = 2).
Proof.
  unfold run_browse, browse_mode, is_none, is_some.
  destruct (start g), (stop g); cbn; repeat split; intros; auto;
    try discriminate; try congruence.
Qed.

(** ** The effect of one key on the session *)

(** The comparison block, as a function of the session, for a [str] key. *)
Lemma type_key_str env s g : snd (type_key env (PyStr s) g) = typed env s g.
Proof.
  destruct (type_key env (PyStr s) g) as [r g'] eqn:T. cbn [snd].
  unfold typed, accepted, counted_wrong.
  unfold type_key in T. unfold bind at 1 in T. unfold get at 1 in T.
  cbv beta iota zeta in T.
  unfold bind at 1 in T. unfold lift at 1 in T. unfold correct_key in T.
  assert (Hwrong : forall r g',
    (if incorrect g + position g <? len (Quote.text (quote g))
     then
       modify (with_incorrect (incorrect g + 1)) ;;
       modify (with_total_incorrect (total_incorrect g + 1)) ;;
       e <- lift (py_concat (_edit g)
                    (if py_eqb (PyStr s) (PyStr [NEWLINE]) then PyStr [SPACE]
                     else PyStr s)) ;;
       modify (with_edit e)
     else ret tt) g = (r, g') ->
    g' = (if incorrect g + position g <? len (Quote.text (quote g))
          then with_edit (_edit g ++ (if str_eqb s [NEWLINE] then [SPACE]
                                      else s))
                 (with_total_incorrect (total_incorrect g + 1)
                    (with_incorrect (incorrect g + 1) g))
          else g)).
  { intros r0 g0.
    destruct (incorrect g + position g <? len (Quote.text (quote g)));
      [|intros H; inversion H; reflexivity].
    unfold bind, modify, lift. step. cbn [py_eqb].
    destruct (str_eqb s [NEWLINE]); cbn [py_concat]; step;
      intros H; inversion H; reflexivity. }
  destruct (incorrect g =? 0) eqn:E;
    [|cbv beta iota zeta in T; exact (Hwrong _ _ T)].
  unfold rbind in T.
  destruct (str_index (Quote.text (quote g)) (position g)) as [c|e'] eqn:Hx;
    cbv beta iota zeta in T; [|inversion T; reflexivity].
  cbn [py_eqb] in T.
  destruct (str_eqb [c] s) eqn:Hk; [|exact (Hwrong _ _ T)].
  unfold bind, modify, get, lift, py_concat in T. cbn [py_eqb] in T.
  destruct (str_eqb s [SPACE] || str_eqb s [NEWLINE]);
    cbv beta iota zeta in T;
    cbn [position quote with_edit with_position] in T;
    (destruct (position g + 1 =? len (Quote.text (quote g)));
     [apply (f_equal snd) in T; rewrite mark_finished_state in T;
      cbn [snd] in T; subst g'; reflexivity
     |inversion T; reflexivity]).
Qed.

(** Every effect that one call of [handle_key] can have on the session. *)
Lemma handle_key_state env key g :
  let g' := snd (handle_key env key g) in
  g' = g \/
  (browse_mode g = true /\ py_in key nav_keys = true /\
   g' = snd (reset env (if py_eqb key (PyStr (lit "KEY_LEFT")) then -1 else 1)
               g)) \/
  (browse_mode g = false /\ is_escape key = Ok true /\
   g' = snd (reset env 0 g)) \/
  (is_escape key = Ok false /\ is_backspace key = Ok true /\
   g' = snd (backspace g)) \/
  (is_escape key = Ok false /\ is_backspace key = Ok false /\
   browse_mode g && py_in key nav_keys = false /\
   exists s, key = PyStr s /\
   g' = typed env
          (match normalize (tab_spaces g) key with PyStr t => t | PyInt _ => s end)
          (begin_typing env g)).
Proof.
  cbv zeta.
  destruct (py_eqb key (PyStr (lit "KEY_RESIZE"))) eqn:Hr.
  { left. unfold handle_key. rewrite Hr. reflexivity. }
  destruct (browse_mode g && py_in key nav_keys) eqn:Hn.
  { right; left. apply andb_true_iff in Hn as Hn'. destruct Hn' as (Hb & Hi).
    split; [exact Hb|]. split; [exact Hi|].
    unfold handle_key. rewrite Hr. unfold bind at 1. unfold get at 1. step.
    rewrite Hn. reflexivity. }
  assert (Hquit : forall b, is_escape key = Ok b ->
            handle_key env key g =
            (if browse_mode g && b then raise KeyboardInterrupt
             else if b then reset env 0
             else bs <- lift (is_backspace key) ;;
                  if bs then backspace
                  else
                    (if is_some (stop g) then reset env 0 else ret tt) ;;
                    g <- get ;;
                    (if is_none (start g) then
                       modify (with_start (Some (time_start env)))
                     else ret tt) ;;
                    type_key env (normalize (tab_spaces g) key)) g).
  { intros b He. unfold handle_key. rewrite Hr. unfold bind at 1.
    unfold get at 1. step. rewrite Hn. unfold bind at 1.
    destruct (browse_mode g); cbn [andb].
    - unfold lift at 1. rewrite He. step.
      destruct b; [reflexivity|]. unfold bind at 1.
      unfold lift at 1. step. reflexivity.
    - unfold ret at 1. step. unfold bind at 1. unfold lift at 1.
      rewrite He. step. destruct b; reflexivity. }
  destruct (is_escape key) as [[|]|e'] eqn:He.
  - rewrite (Hquit true eq_refl). destruct (browse_mode g) eqn:Hb.
    + left. reflexivity.
    + right; right; left. auto.
  - destruct (is_backspace key) as [[|]|e'] eqn:Hb.
    + right; right; right; left. split; [reflexivity|]. split; [reflexivity|].
      rewrite handle_key_backspace by exact Hb. reflexivity.
    + right; right; right; right. split; [reflexivity|].
      split; [reflexivity|]. split; [reflexivity|].
      destruct key as [s|n]; [|discriminate He].
      exists s. split; [reflexivity|].
      rewrite handle_key_ordinary by assumption.
      rewrite normalize_str.
      destruct (tab_spaces g); [destruct (str_eqb s [TAB])|];
        apply type_key_str.
    + left. rewrite (Hquit false eq_refl). rewrite andb_false_r.
      unfold bind, lift. reflexivity.
  - left. unfold handle_key. rewrite Hr. unfold bind at 1. unfold get at 1.
    step. rewrite Hn. unfold bind at 1.
    destruct (browse_mode g); unfold lift, ret; rewrite ?He; step;
      [reflexivity|]. unfold bind. rewrite ?He. reflexivity.
Qed.

(** What the comparison does to the counters: it leaves them and advances
    [position] by at most one, or it counts one wrong key. *)
Lemma typed_effect env s g :
  let g' := typed env s g in
  quote g' = quote g /\ tab_spaces g' = tab_spaces g /\ start g' = start g /\
  ((incorrect g' = incorrect g /\ total_incorrect g' = total_incorrect g /\
    position g <= position g' <= position g + 1) \/
   (incorrect g' = incorrect g + 1 /\
    total_incorrect g' = total_incorrect g + 1 /\
    position g' = position g)).
Proof.
  cbv zeta. unfold typed, accepted, counted_wrong.
  destruct (incorrect g =? 0);
    [destruct (str_index _ _); [destruct (str_eqb _ s)|]|];
    repeat match goal with
           | |- context [if ?b then _ else _] => destruct b
           end;
    cbn [with_edit with_position with_stop with_incorrect with_total_incorrect
         quote tab_spaces start incorrect total_incorrect position];
    (split; [reflexivity|]); (split; [reflexivity|]); (split; [reflexivity|]);
    first [left; repeat split; lia | right; repeat split; lia].
Qed.

Lemma begin_typing_fields env g :
  let g' := begin_typing env g in
  quote g' = quote g /\ tab_spaces g' = tab_spaces g /\ stop g' = None /\
  start g' <> None /\
  ((stop g <> None /\ position g' = 0 /\ incorrect g' = 0 /\
    total_incorrect g' = 0 /\ _edit g' = []) \/
   (stop g = None /\ position g' = position g /\ incorrect g' = incorrect g /\
    total_incorrect g' = total_incorrect g /\ _edit g' = _edit g)).
Proof.
  cbv zeta. unfold begin_typing, fresh.
  destruct (stop g) as [t1|] eqn:Hs; cbn [is_some is_none negb start];
    [|destruct (start g) eqn:Ht; cbn [is_some is_none negb]];
    unfold with_start;
    cbn [quote tab_spaces stop start position incorrect total_incorrect _edit];
    (split; [reflexivity|]); (split; [reflexivity|]);
    (split; [first [reflexivity | exact Hs]|]);
    (split; [first [discriminate | congruence]|]).
  - left. split; [discriminate|repeat split].
  - right. repeat split.
  - right. repeat split.
Qed.

(** [incorrect] never exceeds [total_incorrect], and is never negative. *)
Lemma handle_key_counters env key g :
  0 <= incorrect g <= total_incorrect g ->
  0 <= incorrect (snd (handle_key env key g))
    <= total_incorrect (snd (handle_key env key g)).
Proof.
  intros H. pose proof (handle_key_state env key g) as S. cbv zeta in S.
  destruct S as [-> | [(_ & _ & ->) | [(_ & _ & ->) | [(_ & _ & ->) |
                 (_ & _ & _ & s & _ & ->)]]]].
  - exact H.
  - unfold reset, bind, modify, ret. step.
    destruct (negb (_ =? 0)); [destruct (_ >? 0)|]; cbn; lia.
  - unfold reset, bind, modify, ret. cbn. lia.
  - unfold backspace, bind, get, modify, ret. step.
    destruct (incorrect g =? 0) eqn:E; cbn [negb]; step.
    + destruct (_edit g); cbn; lia.
    + apply Z.eqb_neq in E. cbn. lia.
  - pose proof (begin_typing_fields env g) as B. cbv zeta in B.
    destruct B as (_ & _ & _ & _ & B).
    match goal with |- context [typed env ?t ?h] =>
      pose proof (typed_effect env t h) as T end.
    cbv zeta in T. destruct T as (_ & _ & _ & T).
    destruct B as [(_ & _ & Bi & Bt & _) | (_ & _ & Bi & Bt & _)];
      destruct T as [(Ti & Tt & _) | (Ti & Tt & _)]; lia.
Qed.

Lemma handle_keys_counters keys :
  forall g,
  0 <= incorrect g <= total_incorrect g ->
  0 <= incorrect (handle_keys keys g) <= total_incorrect (handle_keys keys g).
Proof.
  induction keys as [|[env key] rest IH]; intros g H; [exact H|].
  simpl. apply IH. apply handle_key_counters. exact H.
Qed.

(** X12.  After every sequence of keys, starting from a new game on
    non-empty quotes: [0 <= incorrect <= total_incorrect] and
    [position + incorrect <= len(quote.text)]. *)
Theorem session_invariants keys q :
  Quote.text q <> [] ->
  Forall (fun ek => env_ok (fst ek)) keys ->
  let g := handle_keys keys (new_game q) in
  Quote.text (quote g) <> [] /\
  0 <= incorrect g <= total_incorrect g /\
  position g + incorrect g <= len (Quote.text (quote g)).
Proof.
  intros Hq Hk. cbv zeta.
  pose proof (handle_keys_inv keys (new_game q) Hk (new_game_inv q Hq))
    as (Hne & _ & Hc & _).
  pose proof (handle_keys_counters keys (new_game q)) as Hcnt.
  split; [exact Hne|]. split; [|exact Hc].
  apply Hcnt. cbn. lia.
Qed.

Lemma session_invariants_witness :
  0 <= incorrect below_start <= total_incorrect below_start /\
  position below_start + incorrect below_start
    <= len (Quote.text (quote below_start)).
Proof.
  assert (Hq : Quote.text (quote_of "ab") <> []) by discriminate.
  assert (Hk : Forall (fun ek : Env * pyval => env_ok (fst ek))
                 below_start_keys)
    by (repeat constructor; vm_compute; discriminate).
  exact (proj2 (session_invariants below_start_keys (quote_of "ab") Hq Hk)).
Defined.

(** X13.  While typing, no key other than escape lowers [total_incorrect],
    and no key other than escape and backspace lowers [position]; one key
    raises either by at most one. *)
Theorem typing_is_monotone env key g :
  start g <> None -> stop g = None ->
  is_escape key <> Ok true ->
  let g' := snd (handle_key env key g) in
  total_incorrect g <= total_incorrect g' <= total_incorrect g + 1 /\
  position g' <= position g + 1 /\
  (is_backspace key <> Ok true -> position g <= position g').
Proof.
  intros Hs Ht He. cbv zeta.
  assert (Hb : browse_mode g = false).
  { unfold browse_mode, is_none. rewrite Ht.
    destruct (start g); [reflexivity|congruence]. }
  pose proof (handle_key_state env key g) as S. cbv zeta in S.
  destruct S as [-> | [(Hb' & _) | [(_ & He' & _) | [(_ & Hbs & ->) |
                 (_ & _ & _ & s & _ & ->)]]]]; try congruence.
  - repeat split; intros; lia.
  - unfold backspace, bind, get, modify, ret. step.
    destruct (negb (incorrect g =? 0)); step;
      [|destruct (_edit g)]; cbn; repeat split; intros; try lia; congruence.
  - pose proof (begin_typing_fields env g) as B. cbv zeta in B.
    destruct B as (_ & _ & _ & _ & [(B & _) | (_ & Bp & _ & Bt & _)]);
      [congruence|].
    match goal with |- context [typed env ?t ?h] =>
      pose proof (typed_effect env t h) as T end.
    cbv zeta in T. destruct T as (_ & _ & _ & T).
    destruct T as [(_ & Tt & Tp) | (_ & Tt & Tp)]; repeat split; intros; lia.
Qed.

Lemma typing_is_monotone_witness :
  total_incorrect typing_g_x
    <= total_incorrect (snd (handle_key env0 (PyStr (lit "o")) typing_g_x))
    <= total_incorrect typing_g_x + 1.
Proof.
  assert (Hs : start typing_g_x <> None) by (vm_compute; discriminate).
  assert (He : is_escape (PyStr (lit "o")) <> Ok true)
    by (vm_compute; discriminate).
  exact (proj1 (typing_is_monotone env0 (PyStr (lit "o")) typing_g_x
                  Hs eq_refl He)).
Defined.

(** ** Metrics on reachable sessions *)

Lemma accuracy_value g :
  Quote.text (quote g) <> [] ->
  0 <= total_incorrect g ->
  exists a, accuracy g = Ok a /\ (0 <= a)%Q /\ (a <= 1)%Q /\
            (start g <> None -> (0 < a)%Q).
Proof.
  intros Hq Ht. unfold accuracy. destruct (start g) as [t0|].
  - set (L := len (Quote.text (quote g))).
    set (t := total_incorrect g) in *.
    assert (HL : 0 < L) by (apply len_pos; exact Hq).
    assert (Hd : (0 < inject_Z (L + t))%Q).
    { change 0%Q with (inject_Z 0). rewrite <- Zlt_Qlt. lia. }
    assert (Hd0 : ~ inject_Z (L + t) == 0).
    { intros E. rewrite E in Hd. revert Hd. apply Qlt_irrefl. }
    cbv zeta. rewrite float_div_defined by exact Hd0.
    assert (Hpos : (0 < inject_Z L / inject_Z (L + t))%Q).
    { apply Qlt_shift_div_l; [exact Hd|]. rewrite Qmult_0_l.
      change 0%Q with (inject_Z 0). rewrite <- Zlt_Qlt. exact HL. }
    eexists. split; [reflexivity|].
    split; [apply Qlt_le_weak; exact Hpos|]. split; [|intros _; exact Hpos].
    apply Qle_shift_div_r; [exact Hd|]. rewrite Qmult_1_l.
    rewrite <- Zle_Qle. lia.
  - exists 0%Q. split; [reflexivity|]. split; [apply Qle_refl|].
    split; [discriminate|congruence].
Qed.

(** X14.  After every sequence of keys from a new game on non-empty
    quotes, [accuracy] returns (it never divides by zero) a value from 0
    to 1, and a positive one once the session has started. *)
Theorem accuracy_always_defined keys q :
  Quote.text q <> [] ->
  Forall (fun ek => env_ok (fst ek)) keys ->
  exists a,
    accuracy (handle_keys keys (new_game q)) = Ok a /\
    (0 <= a)%Q /\ (a <= 1)%Q /\
    (start (handle_keys keys (new_game q)) <> None -> (0 < a)%Q).
Proof.
  intros Hq Hk.
  pose proof (handle_keys_inv keys (new_game q) Hk (new_game_inv q Hq))
    as (Hne & _).
  pose proof (handle_keys_counters keys (new_game q)) as Hcnt.
  apply accuracy_value; [exact Hne|].
  assert (H0 : 0 <= incorrect (new_game q) <= total_incorrect (new_game q))
    by (cbn; lia).
  specialize (Hcnt H0). lia.
Qed.

Lemma accuracy_always_defined_witness :
  exists a,
    accuracy (handle_keys below_start_keys (new_game (quote_of "ab"))) = Ok a /\
    (0 <= a)%Q /\ (a <= 1)%Q /\
    (start (handle_keys below_start_keys (new_game (quote_of "ab"))) <> None ->
     (0 < a)%Q).
Proof.
  assert (Hq : Quote.text (quote_of "ab") <> []) by discriminate.
  assert (Hk : Forall (fun ek : Env * pyval => env_ok (fst ek))
                 below_start_keys)
    by (repeat constructor; vm_compute; discriminate).
  exact (accuracy_always_defined below_start_keys (quote_of "ab") Hq Hk).
Defined.

Lemma py_min_le_r a b : (py_min a b <= b)%Q.
Proof.
  unfold py_min. destruct (Qlt_le_dec b a); [apply Qle_refl|assumption].
Qed.

Lemma py_min_nonneg a b : (0 <= a)%Q -> (0 <= b)%Q -> (0 <= py_min a b)%Q.
Proof. intros Ha Hb. unfold py_min. destruct (Qlt_le_dec b a); assumption. Qed.

(** X15.  Once the session has started, for [elapsed <> 0], [wpm] is at
    most 999 and [cps] at most 99; neither is negative when [position]
    is not negative and [elapsed] is positive. *)
Theorem wpm_cps_bounds g elapsed :
  start g <> None ->
  ~ elapsed == 0 ->
  exists v w,
    wpm g elapsed = Ok v /\ cps g elapsed = Ok w /\
    (v <= 999)%Q /\ (w <= 99)%Q /\
    (0 <= position g -> (0 < elapsed)%Q -> (0 <= v)%Q /\ (0 <= w)%Q).
Proof.
  intros Hs He. unfold wpm, cps. destruct (start g); [|congruence].
  rewrite !float_div_defined by exact He. cbn [rbind].
  eexists. eexists. split; [reflexivity|]. split; [reflexivity|].
  split; [apply py_min_le_r|]. split; [apply py_min_le_r|].
  intros Hp Hpos.
  assert (Hz : (0 <= inject_Z (position g))%Q).
  { change 0%Q with (inject_Z 0). rewrite <- Zle_Qle. exact Hp. }
  split; apply py_min_nonneg; try discriminate.
  - apply Qle_shift_div_l; [exact Hpos|]. rewrite Qmult_0_l.
    apply Qle_shift_div_l; [reflexivity|]. rewrite Qmult_0_l.
    apply Qmult_le_0_compat; [discriminate|exact Hz].
  - apply Qle_shift_div_l; [exact Hpos|]. rewrite Qmult_0_l. exact Hz.
Qed.

Lemma wpm_cps_bounds_witness :
  exists v w,
    wpm typing_g_o 2 = Ok v /\ cps typing_g_o 2 = Ok w /\
    (v <= 999)%Q /\ (w <= 99)%Q.
Proof.
  assert (Hs : start typing_g_o <> None) by (vm_compute; discriminate).
  assert (He : ~ 2 == 0) by (intros E; discriminate E).
  destruct (wpm_cps_bounds typing_g_o 2 Hs He) as (v & w & Hv & Hw & H1 & H2 & _).
  exists v, w. auto.
Defined.

(** ** Navigation, trying again, tabs *)

Lemma nav_key_cases key :
  py_in key nav_keys = true ->
  key = PyStr [SPACE] \/ key = PyStr (lit "KEY_LEFT") \/
  key = PyStr (lit "KEY_RIGHT").
Proof.
  unfold py_in, nav_keys. cbn [existsb]. rewrite orb_false_r.
  destruct key as [s|n]; [|discriminate]. cbn [py_eqb].
  rewrite !orb_true_iff, !str_eqb_eq. intros [-> | [-> | ->]]; auto.
Qed.

(** X16.  In browse mode a space or a right arrow loads the next quote and
    a left arrow the previous one, each with a fresh session; no other key,
    and no key while typing, changes the quote. *)
Theorem quote_changes_only_by_navigation env key g :
  (browse_mode g = true -> py_in key nav_keys = true ->
   handle_key env key g =
   (Ok tt, with_quote (if py_eqb key (PyStr (lit "KEY_LEFT"))
                       then quotes_previous env else quotes_next env)
                      (fresh g))) /\
  (quote (snd (handle_key env key g)) <> quote g ->
   browse_mode g = true /\ py_in key nav_keys = true).
Proof.
  split.
  - intros Hb Hn.
    assert (Hr : py_eqb key (PyStr (lit "KEY_RESIZE")) = false)
      by (destruct (nav_key_cases key Hn) as [-> | [-> | ->]]; reflexivity).
    unfold handle_key. rewrite Hr. unfold bind at 1. unfold get at 1. step.
    rewrite Hb, Hn. cbn [andb].
    destruct (nav_key_cases key Hn) as [-> | [-> | ->]]; reflexivity.
  - intros Hq. pose proof (handle_key_state env key g) as S. cbv zeta in S.
    destruct S as [E | [(Hb & Hn & _) | [(_ & _ & E) | [(_ & _ & E) |
                   (_ & _ & _ & s & _ & E)]]]].
    + rewrite E in Hq. congruence.
    + auto.
    + rewrite E in Hq. exfalso. apply Hq. reflexivity.
    + rewrite E in Hq. exfalso. apply Hq.
      unfold backspace, bind, get, modify, ret. step.
      destruct (negb (incorrect g =? 0)); step; [|destruct (_edit g)];
        reflexivity.
    + rewrite E in Hq. exfalso. apply Hq.
      match goal with |- context [typed env ?t ?h] =>
        pose proof (typed_effect env t h) as T end.
      cbv zeta in T. destruct T as (-> & _).
      pose proof (begin_typing_fields env g) as B. cbv zeta in B.
      exact (proj1 B).
Qed.

Lemma quote_changes_only_by_navigation_witness :
  handle_key env0 (PyStr (lit "KEY_LEFT")) finished_a =
  (Ok tt, with_quote (quotes_previous env0) (fresh finished_a)).
Proof.
  exact (proj1 (quote_changes_only_by_navigation env0 (PyStr (lit "KEY_LEFT"))
                  finished_a) eq_refl eq_refl).
Defined.

(** X17.  In the Finished state an ordinary key (not a resize, navigation,
    escape or backspace key) starts a new attempt: it is handled exactly
    as on a fresh session for the same quote. *)
Theorem ordinary_key_when_finished_tries_again env key g :
  stop g <> None ->
  py_eqb key (PyStr (lit "KEY_RESIZE")) = false ->
  py_in key nav_keys = false ->
  is_escape key = Ok false ->
  is_backspace key = Ok false ->
  handle_key env key g = handle_key env key (fresh g).
Proof.
  intros Hs Hr Hn He Hb.
  rewrite !handle_key_ordinary; try assumption;
    try (rewrite Hn; apply andb_false_r).
  unfold begin_typing. destruct (stop g); [|congruence]. reflexivity.
Qed.

Lemma ordinary_key_when_finished_tries_again_witness :
  handle_key env0 (PyStr (lit "b")) finished_a =
  handle_key env0 (PyStr (lit "b")) (fresh finished_a).
Proof.
  apply (ordinary_key_when_finished_tries_again env0 (PyStr (lit "b"))
           finished_a); try reflexivity.
  vm_compute. discriminate.
Defined.

Lemma typed_rejected env s g :
  (forall c, str_eqb [c] s = false) ->
  position (typed env s g) = position g.
Proof.
  intros H. unfold typed, counted_wrong.
  destruct (incorrect g =? 0);
    [destruct (str_index _ _) as [c|]; [rewrite (H c)|]|];
    try reflexivity;
    destruct (incorrect g + position g <? len (Quote.text (quote g)));
    reflexivity.
Qed.

(** X18.  With [tab_spaces] set to a number other than 1, a tab key never
    advances [position]: the run of spaces it is expanded to is compared
    with one character of the quote. *)
Theorem expanded_tab_is_never_accepted env g n :
  tab_spaces g = Some n ->
  n <> 1 ->
  stop g = None ->
  position (snd (handle_key env (PyStr [TAB]) g)) = position g.
Proof.
  intros Ht Hn Hs. pose proof (handle_key_state env (PyStr [TAB]) g) as S.
  cbv zeta in S.
  destruct S as [-> | [(_ & Hnav & _) | [(_ & He & _) | [(_ & Hb & _) |
                 (_ & _ & _ & s & Hk & ->)]]]];
    try reflexivity; try discriminate.
  rewrite Ht. cbn [normalize py_eqb str_eqb curses_KEY_ENTER].
  replace (N.eqb TAB TAB && true) with true by reflexivity. cbv iota.
  rewrite typed_rejected.
  - pose proof (begin_typing_fields env g) as B. cbv zeta in B.
    destruct B as (_ & _ & _ & _ & [(B & _) | (_ & Bp & _)]);
      [congruence|exact Bp].
  - intros c. destruct (Z.to_nat n) as [|[|k]] eqn:E.
    + reflexivity.
    + exfalso. destruct (Z.le_gt_cases n 0); lia.
    + cbn [repeat str_eqb]. apply andb_false_r.
Qed.

Lemma expanded_tab_is_never_accepted_witness :
  position (snd (handle_key env0 (PyStr [TAB])
                   (set_tab_spaces (Some 4) (new_game (quote_of "    x")))))
  = position (set_tab_spaces (Some 4) (new_game (quote_of "    x"))).
Proof.
  apply (expanded_tab_is_never_accepted env0
           (set_tab_spaces (Some 4) (new_game (quote_of "    x"))) 4).
  - reflexivity.
  - lia.
  - reflexivity.
Defined.

(** ** Typing *)

(** A one-character key that is no command reaches the comparison. *)
Lemma char_key_is_ordinary c :
  command_char c = false ->
  py_eqb (PyStr [c]) (PyStr (lit "KEY_RESIZE")) = false /\
  is_escape (PyStr [c]) = Ok false /\
  is_backspace (PyStr [c]) = Ok false /\
  py_in (PyStr [c]) nav_keys = N.eqb c SPACE.
Proof.
  unfold command_char. rewrite !orb_false_iff, !N.eqb_neq.
  intros ((H27 & H8) & H127).
  split; [cbn; apply andb_false_r|].
  unfold is_escape, is_backspace, curses_ascii_ESC, curses_ascii_BS,
    curses_ascii_DEL.
  cbn [py_len py_ord rbind len length Z.of_nat Pos.of_succ_nat Z.eqb Pos.eqb
       Z.gtb Z.compare Pos.compare Pos.compare_cont].
  replace (Z.of_N c =? 27) with false by (symmetry; apply Z.eqb_neq; lia).
  replace (Z.of_N c =? 8) with false by (symmetry; apply Z.eqb_neq; lia).
  replace (Z.of_N c =? 127) with false by (symmetry; apply Z.eqb_neq; lia).
  split; [reflexivity|]. split; [reflexivity|].
  unfold py_in, nav_keys. cbn [existsb py_eqb str_eqb lit map
    list_ascii_of_string]. rewrite !andb_false_r, andb_true_r. cbn [orb].
  destruct (N.eqb c SPACE); reflexivity.
Qed.

(** X19.  While typing, as long as the quote is not covered yet
    ([position + incorrect < len(quote.text)], with [incorrect >= 0]), a
    wrong one-character key followed by a backspace restores [position],
    [incorrect] and the edit buffer; only [total_incorrect] keeps the
    error.  (Once the quote is covered the wrong key is dropped, and the
    backspace takes back an earlier key instead.) *)
Theorem wrong_key_then_backspace env env' c bs g :
  start g <> None -> stop g = None ->
  0 <= incorrect g ->
  incorrect g + position g < len (Quote.text (quote g)) ->
  command_char c = false ->
  tab_spaces g = None \/ c <> TAB ->
  correct_key g (PyStr [c]) = Ok false ->
  is_backspace bs = Ok true ->
  snd (handle_key env' bs (snd (handle_key env (PyStr [c]) g))) =
  with_total_incorrect (total_incorrect g + 1) g.
Proof.
  intros Hs Ht Hi Hroom Hc Htab Hwrong Hbs.
  destruct (char_key_is_ordinary c Hc) as (Hr & He & Hb & Hn).
  assert (Hbrowse : browse_mode g = false).
  { unfold browse_mode, is_none. rewrite Ht.
    destruct (start g); [reflexivity|congruence]. }
  rewrite (handle_key_ordinary env (PyStr [c]) g Hr)
    by (try assumption; rewrite Hbrowse; reflexivity).
  assert (Hnorm : normalize (tab_spaces g) (PyStr [c]) = PyStr [c]).
  { rewrite normalize_str. destruct Htab as [-> | Hne]; [reflexivity|].
    destruct (tab_spaces g); [|reflexivity]. cbn [str_eqb].
    replace (N.eqb c TAB) with false by (symmetry; apply N.eqb_neq; exact Hne).
    reflexivity. }
  assert (Hbegin : begin_typing env g = g).
  { unfold begin_typing. rewrite Ht. cbn [is_some].
    destruct (start g); [reflexivity|congruence]. }
  rewrite Hnorm, Hbegin, type_key_str.
  assert (Htyped : typed env [c] g = counted_wrong [c] g).
  { unfold typed. unfold correct_key in Hwrong.
    destruct (incorrect g =? 0); [|reflexivity]. unfold rbind in Hwrong.
    destruct (str_index _ _) as [c'|]; [|discriminate Hwrong].
    assert (Hk : str_eqb [c'] [c] = false) by (inversion Hwrong; reflexivity).
    rewrite Hk. reflexivity. }
  rewrite Htyped. unfold counted_wrong.
  replace (incorrect g + position g <? len (Quote.text (quote g))) with true
    by (symmetry; apply Z.ltb_lt; exact Hroom).
  rewrite handle_key_backspace by exact Hbs.
  unfold backspace, bind, get, modify. step.
  cbn [with_edit with_total_incorrect with_incorrect incorrect _edit].
  replace (incorrect g + 1 =? 0) with false by (symmetry; apply Z.eqb_neq; lia).
  cbn [negb]. step. rewrite slice_to_drop_last.
  destruct (str_eqb [c] [NEWLINE]); rewrite removelast_last;
    unfold with_edit, with_incorrect, with_total_incorrect;
    cbn [tab_spaces position incorrect total_incorrect start stop _edit quote];
    f_equal; lia.
Qed.

Lemma wrong_key_then_backspace_witness :
  snd (handle_key env0 (PyStr [127%N])
         (snd (handle_key env0 (PyStr (lit "x")) typing_g_o))) =
  with_total_incorrect (total_incorrect typing_g_o + 1) typing_g_o.
Proof.
  apply (wrong_key_then_backspace env0 env0 120%N (PyStr [127%N]) typing_g_o).
  - vm_compute. discriminate.
  - reflexivity.
  - vm_compute. discriminate.
  - vm_compute. reflexivity.
  - reflexivity.
  - left. reflexivity.
  - reflexivity.
  - reflexivity.
Defined.

Lemma str_index_app pre c suf : str_index (pre ++ c :: suf) (len pre) = Ok c.
Proof.
  unfold str_index, len. rewrite length_app. simpl length.
  assert (E1 : (Z.of_nat (length pre) <? 0) = false) by (apply Z.ltb_ge; lia).
  assert (E2 : (Z.of_nat (length pre + S (length suf))
                <=? Z.of_nat (length pre)) = false) by (apply Z.leb_gt; lia).
  rewrite E1. cbv zeta. rewrite E1, E2. cbn [orb].
  rewrite Nat2Z.id, nth_error_app2 by lia.
  rewrite Nat.sub_diag. reflexivity.
Qed.

(** The next character of the quote, typed on a session without pending
    errors, is accepted. *)
Lemma accept_char env c g pre suf :
  command_char c = false ->
  browse_mode g = false \/ c <> SPACE ->
  stop g = None -> incorrect g = 0 -> tab_spaces g = None ->
  Quote.text (quote g) = pre ++ c :: suf ->
  position g = len pre ->
  let g1 := snd (handle_key env (PyStr [c]) g) in
  quote g1 = quote g /\ tab_spaces g1 = None /\
  position g1 = position g + 1 /\ incorrect g1 = 0 /\
  total_incorrect g1 = total_incorrect g /\ start g1 <> None /\
  stop g1 = (if position g + 1 =? len (Quote.text (quote g))
             then Some (time_stop env) else None).
Proof.
  intros Hc Hfirst Hs Hi Htab Htext Hpos. cbv zeta.
  destruct (char_key_is_ordinary c Hc) as (Hr & He & Hb & Hn).
  assert (Hnav : browse_mode g && py_in (PyStr [c]) nav_keys = false).
  { rewrite Hn. destruct Hfirst as [-> | Hne]; [reflexivity|].
    replace (N.eqb c SPACE) with false by (symmetry; apply N.eqb_neq; exact Hne).
    apply andb_false_r. }
  rewrite (handle_key_ordinary env (PyStr [c]) g Hr Hnav He Hb).
  rewrite normalize_str, Htab, type_key_str.
  pose proof (begin_typing_fields env g) as B. cbv zeta in B.
  destruct B as (Bq & Bt & Bs & Bst & [(B & _) | (_ & Bp & Bi & Btot & _)]);
    [congruence|].
  set (bt := begin_typing env g) in *.
  unfold typed. rewrite Bi, Hi. change (0 =? 0) with true. cbv iota.
  rewrite Bq, Bp, Htext, Hpos, str_index_app.
  replace (str_eqb [c] [c]) with true
    by (symmetry; apply str_eqb_eq; reflexivity).
  unfold accepted. rewrite Bq, Bp, Htext, Hpos.
  destruct (len pre + 1 =? len (pre ++ c :: suf));
    cbn [with_stop with_edit with_position quote tab_spaces position incorrect
         total_incorrect start stop];
    repeat split; auto; congruence.
Qed.

(** Typing the rest of the quote, character by character. *)
Lemma type_suffix suf :
  forall pre envs g,
  suf <> [] ->
  Quote.text (quote g) = pre ++ suf ->
  position g = len pre ->
  incorrect g = 0 -> stop g = None -> tab_spaces g = None ->
  Forall (fun c => command_char c = false) suf ->
  browse_mode g = false \/ hd_error suf <> Some SPACE ->
  length envs = length suf ->
  let g' := handle_keys (type_text envs suf) g in
  quote g' = quote g /\
  position g' = len (pre ++ suf) /\ incorrect g' = 0 /\
  total_incorrect g' = total_incorrect g /\ start g' <> None /\
  stop g' = Some (time_stop (last envs env0)).
Proof.
  induction suf as [|c suf IH];
    intros pre envs g Hne Htext Hpos Hi Hs Htab Hall Hfirst Hlen;
    [congruence|].
  destruct envs as [|e envs]; [discriminate Hlen|].
  inversion Hall as [|? ? Hc Hall']; subst.
  assert (Hfirst' : browse_mode g = false \/ c <> SPACE).
  { destruct Hfirst as [H|H]; [left; exact H|right].
    intros ->. apply H. reflexivity. }
  pose proof (accept_char e c g pre suf Hc Hfirst' Hs Hi Htab Htext Hpos) as A.
  cbv zeta in A. destruct A as (Aq & At & Ap & Ai & Atot & Ast & Astop).
  cbv zeta. unfold type_text.
  cbn [map combine handle_keys].
  set (g1 := snd (handle_key e (PyStr [c]) g)) in *.
  assert (Hl : len (pre ++ c :: suf) = len pre + 1 + len suf)
    by (unfold len; rewrite length_app; simpl length; lia).
  rewrite Htext, Hpos, Hl in Astop.
  destruct suf as [|c' suf'].
  - destruct envs; [|discriminate Hlen]. cbn [map combine handle_keys last].
    replace (len pre + 1 =? len pre + 1 + len []) with true in Astop
      by (symmetry; apply Z.eqb_eq; unfold len; simpl; lia).
    repeat split; auto; try congruence. rewrite Ap, Hpos, Hl.
    unfold len; simpl; lia.
  - replace (len pre + 1 =? len pre + 1 + len (c' :: suf')) with false in Astop
      by (symmetry; apply Z.eqb_neq; unfold len; simpl length; lia).
    assert (Hb1 : browse_mode g1 = false).
    { unfold browse_mode, is_none. rewrite Astop.
      destruct (start g1); [reflexivity|congruence]. }
    assert (Htext1 : Quote.text (quote g1) = (pre ++ [c]) ++ c' :: suf').
    { rewrite Aq, Htext, <- app_assoc. reflexivity. }
    assert (Hpos1 : position g1 = len (pre ++ [c])).
    { rewrite Ap, Hpos. unfold len. rewrite length_app. simpl length. lia. }
    assert (Hlen1 : length envs = length (c' :: suf'))
      by (simpl in Hlen |- *; lia).
    specialize (IH (pre ++ [c]) envs g1 ltac:(discriminate) Htext1 Hpos1 Ai
                  Astop At Hall' (or_introl Hb1) Hlen1).
    cbv zeta in IH. unfold type_text in IH.
    destruct IH as (Iq & Ip & Ii & Itot & Ist & Istop).
    rewrite <- app_assoc in Ip. cbn [app] in Ip.
    destruct envs as [|e' envs']; [discriminate Hlen|].
    repeat split; auto; try congruence.
Qed.

(** X20.  Typing a quote verbatim on a new game, one key per character,
    finishes the race without an error: [position] is [len(quote.text)],
    [incorrect] and [total_incorrect] are 0, [stop] is set and [accuracy]
    is 1.  This holds when the quote does not start with a space (in
    browse mode a space loads the next quote) and contains no escape,
    backspace or delete character. *)
Theorem typing_the_quote_finishes q envs :
  Quote.text q <> [] ->
  hd_error (Quote.text q) <> Some SPACE ->
  Forall (fun c => command_char c = false) (Quote.text q) ->
  length envs = length (Quote.text q) ->
  let g := handle_keys (type_text envs (Quote.text q)) (new_game q) in
  position g = len (Quote.text q) /\
  incorrect g = 0 /\ total_incorrect g = 0 /\
  stop g = Some (time_stop (last envs env0)) /\
  returns (accuracy g) 1.
Proof.
  intros Hne Hhd Hall Hlen.
  pose proof (type_suffix (Quote.text q) [] envs (new_game q) Hne eq_refl
                eq_refl eq_refl eq_refl eq_refl Hall (or_intror Hhd) Hlen) as T.
  cbv zeta in T |- *. destruct T as (Tq & Tp & Ti & Tt & Ts & Tstop).
  cbn [app new_game total_incorrect quote] in Tp, Tt, Tq.
  split; [exact Tp|]. split; [exact Ti|]. split; [exact Tt|].
  split; [exact Tstop|].
  set (g := handle_keys (type_text envs (Quote.text q)) (new_game q)) in *.
  unfold accuracy. destruct (start g); [|congruence].
  cbv zeta. rewrite Tt, Tq, Z.add_0_r.
  assert (Hd : ~ inject_Z (len (Quote.text q)) == 0).
  { pose proof (len_pos _ Hne) as Hl. intros E.
    unfold Qeq in E. simpl in E. lia. }
  rewrite float_div_defined by exact Hd. unfold returns, Qdiv.
  apply Qmult_inv_r. exact Hd.
Qed.

Lemma typing_the_quote_finishes_witness :
  position (handle_keys (type_text (repeat env0 5) (lit "go go"))
              (new_game (quote_of "go go"))) = len (lit "go go") /\
  total_incorrect (handle_keys (type_text (repeat env0 5) (lit "go go"))
                     (new_game (quote_of "go go"))) = 0.
Proof.
  assert (Hne : Quote.text (quote_of "go go") <> []) by discriminate.
  assert (Hhd : hd_error (Quote.text (quote_of "go go")) <> Some SPACE)
    by discriminate.
  assert (Hall : Forall (fun c => command_char c = false)
                   (Quote.text (quote_of "go go")))
    by (repeat constructor).
  destruct (typing_the_quote_finishes (quote_of "go go") (repeat env0 5)
              Hne Hhd Hall eq_refl) as (Hp & _ & Ht & _).
  split; [exact Hp|exact Ht].
Defined.

(** ** The main loop *)

Lemma screen_coords_negative lengths o :
  Forall (fun n => 0 <= n) lengths -> o < 0 ->
  screen_coords lengths o = (o, 0).
Proof.
  intros Hpos Ho. unfold screen_coords. destruct lengths as [|l rest];
    [reflexivity|].
  inversion Hpos; subst. cbn [screen_coords_loop].
  replace (o <=? l) with true by (symmetry; apply Z.leb_le; lia).
  reflexivity.
Qed.

(** While typing, [update] returns only if the offset of the cursor,
    [position + incorrect], is not negative. *)
Lemma update_typing_nonneg lines cols mqw quote position incorrect :
  update lines cols mqw 0 quote position incorrect = Ok tt ->
  0 <= position + incorrect.
Proof.
  unfold update, update_cells. cbv zeta.
  set (qc := if mqw >? 0 then Z.min cols mqw else cols).
  destruct (word_wrap quote (qc - 1)) as [lengths|e] eqn:H; [|discriminate].
  unfold rbind. change (0 <? 1) with true. cbv iota.
  destruct (Z.lt_ge_cases (position + incorrect) 0) as [Hneg|Hge]; [|lia].
  unfold word_wrap in H. apply word_wrap_loop_spec in H.
  destruct H as (tail & Ht & Hpos & _). simpl in Ht. subst tail.
  rewrite (screen_coords_negative lengths (position + incorrect) Hpos Hneg).
  rewrite forallb_app. intros U. exfalso.
  destruct (forallb (window_cell lines cols) _) in U; [|discriminate U].
  cbn [andb forallb] in U. unfold window_cell in U. cbn [fst snd] in U.
  replace (0 <=? Z.min (position + incorrect) (qc - 1)) with false in U
    by (symmetry; apply Z.leb_gt; lia).
  rewrite andb_false_r in U. cbn [andb] in U. discriminate U.
Qed.

Lemma reset_fields env d g :
  let g' := snd (reset env d g) in
  position g' = 0 /\ incorrect g' = 0 /\ total_incorrect g' = 0 /\
  _edit g' = [] /\ start g' = None /\ stop g' = None.
Proof.
  cbv zeta. unfold reset, bind, modify, ret. step.
  destruct (negb (d =? 0)); [destruct (d >? 0)|]; cbn; repeat split.
Qed.

Lemma backspace_fields g :
  let g' := snd (backspace g) in
  start g' = start g /\ stop g' = stop g /\
  ((incorrect g <> 0 /\ position g' = position g /\
    incorrect g' = incorrect g - 1) \/
   (incorrect g = 0 /\ _edit g <> [] /\ position g' = position g - 1 /\
    incorrect g' = 0) \/
   (incorrect g = 0 /\ _edit g = [] /\ g' = g)).
Proof.
  cbv zeta. unfold backspace, bind, get, modify, ret. step.
  destruct (incorrect g =? 0) eqn:E; cbn [negb]; step.
  - apply Z.eqb_eq in E. destruct (_edit g) as [|c e] eqn:Ee; step.
    + repeat split. right; right. repeat split; assumption.
    + cbn [with_edit with_position start stop position incorrect].
      repeat split. right; left. repeat split; try assumption. discriminate.
  - apply Z.eqb_neq in E.
    cbn [with_edit with_incorrect start stop position incorrect].
    repeat split. left. repeat split. exact E.
Qed.

(** One call of [handle_key], made on a session that was just redrawn,
    keeps the invariant of the loop. *)
Lemma handle_key_loop_inv env key g :
  env_ok env ->
  loop_inv g ->
  (stop g = None -> 0 <= position g) ->
  loop_inv (snd (handle_key env key g)).
Proof.
  intros Henv (Hinv & Hnew & Hlow) Hdrawn.
  split; [apply handle_key_inv; assumption|].
  pose proof (handle_key_state env key g) as S. cbv zeta in S.
  destruct S as [-> | [(_ & _ & ->) | [(_ & _ & ->) | [(_ & _ & ->) |
                 (_ & _ & _ & s & _ & ->)]]]].
  - split; [exact Hnew|]. intros Hs. specialize (Hdrawn Hs). split; lia.
  - pose proof (reset_fields env
                  (if py_eqb key (PyStr (lit "KEY_LEFT")) then -1 else 1) g)
      as R. cbv zeta in R. destruct R as (Rp & Ri & _ & Re & _).
    split; [intros _ _; auto|]. intros _. rewrite Rp. split; [lia|auto].
  - pose proof (reset_fields env 0 g) as R. cbv zeta in R.
    destruct R as (Rp & Ri & _ & Re & _).
    split; [intros _ _; auto|]. intros _. rewrite Rp. split; [lia|auto].
  - pose proof (backspace_fields g) as B. cbv zeta in B.
    destruct B as (Bs & Bt & B). rewrite Bs, Bt.
    destruct B as [(Hi & Bp & Bi) | [(Hi & He & Bp & Bi) | (Hi & He & ->)]].
    + split.
      * intros Hs Ht. destruct (Hnew Hs Ht) as (_ & Hi0 & _). congruence.
      * intros Ht. specialize (Hdrawn Ht). rewrite Bp. split; lia.
    + split.
      * intros Hs Ht. destruct (Hnew Hs Ht) as (_ & _ & He0). congruence.
      * intros Ht. specialize (Hdrawn Ht). rewrite Bp, Bi. split; lia.
    + split; [exact Hnew|]. intros Ht. specialize (Hdrawn Ht). split; lia.
  - pose proof (begin_typing_fields env g) as B. cbv zeta in B.
    destruct B as (_ & _ & _ & Bst & B).
    match goal with |- context [typed env ?t ?h] =>
      pose proof (typed_effect env t h) as T end.
    cbv zeta in T. destruct T as (_ & _ & Tst & T).
    split; [intros Hs; rewrite Tst in Hs; congruence|].
    intros _.
    assert (Hbt : 0 <= position (begin_typing env g)).
    { destruct B as [(_ & Bp & _) | (Hs & Bp & _)]; rewrite Bp;
        [lia|exact (Hdrawn Hs)]. }
    destruct T as [(_ & _ & Tp) | (_ & _ & Tp)]; split; lia.
Qed.

Lemma new_game_loop_inv q : Quote.text q <> [] -> loop_inv (new_game q).
Proof.
  intros Hq. split; [apply new_game_inv; exact Hq|].
  cbn. split; intros; repeat split; lia.
Qed.

Lemma run_redraw_state mqw t g : snd (run_redraw mqw t g) = g.
Proof.
  unfold run_redraw, bind, get, lift. step.
  destruct (get_stats g _); step; [|reflexivity].
  destruct (wpm g _); reflexivity.
Qed.

(** What a redraw that returned tells about the session: while typing,
    [position] is not negative. *)
Lemma run_redraw_returns mqw t g :
  fst (run_redraw mqw t g) = Ok tt ->
  loop_inv g ->
  stop g = None -> 0 <= position g.
Proof.
  intros H (_ & Hnew & Hlow) Hs.
  destruct (start g) as [t0|] eqn:Hst;
    [|destruct (Hnew eq_refl Hs) as (-> & _); lia].
  assert (Hu : update (tick_lines t) (tick_cols t) mqw 0
                 (Quote.text (quote g)) (position g) (incorrect g) = Ok tt).
  { unfold run_redraw, bind, get, lift in H. cbv beta iota zeta in H.
    destruct (get_stats g _); cbv beta iota zeta in H; [|discriminate H].
    destruct (wpm g _); cbv beta iota zeta in H; [|discriminate H].
    assert (Hb : run_browse g = 0)
      by (unfold run_browse, is_some, is_none; rewrite Hst, Hs; reflexivity).
    rewrite Hb in H. cbn [fst] in H.
    destruct (update _ _ _ _ _ _ _) as [[]|]; [reflexivity|discriminate H]. }
  apply update_typing_nonneg in Hu. destruct (Hlow Hs) as (H1 & H2). lia.
Qed.

Lemma run_reaches_loop_inv mqw g0 g :
  loop_inv g0 -> run_reaches mqw g0 g -> loop_inv g.
Proof.
  intros H0 R.
  induction R as [|g t key g' R IH Henv Hdraw Hstep]; [exact H0|].
  destruct key as [k|]; [|inversion Hstep; subst; exact IH].
  replace g' with (snd (handle_key (tick_env t) k g))
    by (rewrite Hstep; reflexivity).
  apply handle_key_loop_inv; [exact Henv|exact IH|].
  exact (run_redraw_returns mqw t g Hdraw IH).
Qed.

(** An iteration of the loop that returned is a step of [run_reaches]. *)
Lemma run_iteration_reaches mqw g0 t g g' :
  run_reaches mqw g0 g ->
  env_ok (tick_env t) ->
  run_iteration mqw t g = (Ok tt, g') ->
  run_reaches mqw g0 g'.
Proof.
  intros R Henv H. unfold run_iteration in H. unfold bind at 1 in H.
  pose proof (run_redraw_state mqw t g) as Hst.
  destruct (run_redraw mqw t g) as [r g1] eqn:D. cbn [snd] in Hst. subst g1.
  destruct r as [[]|e]; [|discriminate H].
  unfold run_input, bind, lift in H.
  destruct (_get_key_py33 (tick_wch t)) as [key|e] eqn:K;
    cbv beta iota zeta in H; [|discriminate H].
  apply (run_next mqw g0 g t key g' R Henv); [rewrite D; reflexivity|].
  destruct key; exact H.
Qed.

(** The sessions that the loop itself reaches are among them. *)
Lemma run_returns_reaches mqw ticks :
  Forall (fun t => env_ok (tick_env t)) ticks ->
  forall g0 g g',
  run_reaches mqw g0 g ->
  run mqw ticks g = (Ok tt, g') ->
  run_reaches mqw g0 g'.
Proof.
  induction 1 as [|t rest Henv _ IH]; intros g0 g g' R H.
  - inversion H; subst. exact R.
  - cbn [run] in H. unfold bind at 1 in H.
    destruct (run_iteration mqw t g) as [[[]|e] g1] eqn:I; [|discriminate H].
    exact (IH g0 g1 g' (run_iteration_reaches mqw g0 t g g1 R Henv I) H).
Qed.

(** [IndexError] comes from the read of the quote only. *)
Lemma type_key_index_error env key g :
  fst (type_key env key g) = Raise IndexError ->
  incorrect g = 0 /\
  str_index (Quote.text (quote g)) (position g) = Raise IndexError.
Proof.
  intros H.
  destruct (incorrect g =? 0) eqn:E.
  - destruct (str_index (Quote.text (quote g)) (position g)) as [c|e] eqn:Hx.
    + exfalso. destruct (type_key env key g) as [r g'] eqn:T.
      cbn [fst] in H. subst r.
      unfold type_key in T. unfold bind at 1 in T. unfold get at 1 in T.
      cbv beta iota zeta in T.
      unfold bind at 1 in T. unfold lift at 1 in T. unfold correct_key in T.
      rewrite E in T. unfold rbind in T. rewrite Hx in T.
      cbv beta iota zeta in T.
      destruct (py_eqb (PyStr [c]) key) eqn:Hk.
      * destruct key as [s|n]; [|discriminate Hk].
        unfold bind, modify, get, lift, py_concat in T.
        destruct (py_eqb (PyStr s) (PyStr [SPACE]) ||
                  py_eqb (PyStr s) (PyStr [NEWLINE]));
          cbv beta iota zeta in T;
          cbn [position quote with_edit with_position] in T;
          (destruct (position g + 1 =? len (Quote.text (quote g)));
           [|discriminate T]);
          pose proof (mark_finished_raises env _ _ (f_equal fst T));
          discriminate.
      * destruct (incorrect g + position g <? len (Quote.text (quote g)));
          [|discriminate T].
        unfold bind, modify, lift in T. cbv beta iota zeta in T.
        destruct key as [s|n].
        -- destruct (py_eqb (PyStr s) (PyStr [NEWLINE])); discriminate T.
        -- cbn [py_eqb py_concat] in T. cbv beta iota zeta in T.
           discriminate T.
    + apply Z.eqb_eq in E. split; [exact E|].
      rewrite (str_index_raises _ _ _ Hx). reflexivity.
  - exfalso. destruct (type_key env key g) as [r g'] eqn:T.
    cbn [fst] in H. subst r.
    unfold type_key in T. unfold bind at 1 in T. unfold get at 1 in T.
    cbv beta iota zeta in T.
    unfold bind at 1 in T. unfold lift at 1 in T. unfold correct_key in T.
    rewrite E in T. cbv beta iota zeta in T.
    destruct (incorrect g + position g <? len (Quote.text (quote g)));
      [|discriminate T].
    unfold bind, modify, lift in T. cbv beta iota zeta in T.
    destruct key as [s|n].
    + destruct (py_eqb (PyStr s) (PyStr [NEWLINE])); discriminate T.
    + cbn [py_eqb py_concat] in T. cbv beta iota zeta in T. discriminate T.
Qed.

Lemma handle_key_index_error env key g :
  fst (handle_key env key g) = Raise IndexError ->
  str_index (Quote.text (quote (begin_typing env g)))
    (position (begin_typing env g)) = Raise IndexError.
Proof.
  intros H.
  destruct (py_eqb key (PyStr (lit "KEY_RESIZE"))) eqn:Hr.
  { exfalso. unfold handle_key in H. rewrite Hr in H. discriminate H. }
  destruct (browse_mode g && py_in key nav_keys) eqn:Hn.
  { exfalso. revert H. unfold handle_key. rewrite Hr. unfold bind at 1.
    unfold get at 1. step. rewrite Hn. rewrite reset_returns. discriminate. }
  destruct (is_escape key) as [[|]|e'] eqn:He.
  - exfalso. revert H.
    unfold handle_key. rewrite Hr. unfold bind at 1. unfold get at 1. step.
    rewrite Hn. unfold bind at 1. destruct (browse_mode g) eqn:Hb.
    + unfold lift at 1. rewrite He. step. unfold raise. step. discriminate.
    + unfold ret at 1. step. unfold bind at 1. unfold lift at 1.
      rewrite He. step. rewrite reset_returns. discriminate.
  - destruct (is_backspace key) as [[|]|e''] eqn:Hb.
    + exfalso. revert H. rewrite handle_key_backspace by exact Hb.
      rewrite backspace_returns. discriminate.
    + rewrite handle_key_ordinary in H by assumption.
      exact (proj2 (type_key_index_error _ _ _ H)).
    + exfalso. destruct (is_backspace_raises _ _ Hb) as (-> & _).
      revert H.
      unfold handle_key. rewrite Hr. unfold bind at 1. unfold get at 1. step.
      rewrite Hn. unfold bind at 1.
      replace ((if browse_mode g then lift (is_escape key) else ret false) g)
        with (@Ok bool false, g)
        by (destruct (browse_mode g); unfold lift, ret; rewrite ?He;
            reflexivity).
      step. unfold bind at 1. unfold lift at 1. rewrite He. step.
      unfold bind at 1. unfold lift at 1. rewrite Hb. step. discriminate.
  - exfalso. destruct (is_escape_raises _ _ He) as (-> & n & ->).
    revert H.
    unfold handle_key. rewrite Hr. unfold bind at 1. unfold get at 1. step.
    rewrite Hn. unfold bind at 1.
    destruct (browse_mode g); unfold lift, ret; cbn [is_escape py_len rbind];
      step; [|unfold bind; step]; discriminate.
Qed.

Lemma str_index_in_range s i :
  0 <= i < len s -> exists c, str_index s i = Ok c.
Proof.
  intros H. unfold str_index.
  assert (E1 : (i <? 0) = false) by (apply Z.ltb_ge; lia).
  assert (E2 : (len s <=? i) = false) by (apply Z.leb_gt; lia).
  rewrite E1. cbv beta iota zeta. rewrite E1, E2. cbn [orb]. destruct (nth_error s (Z.to_nat i)) as [c|] eqn:E;
    [eexists; reflexivity|].
  apply nth_error_None in E. unfold len in H. lia.
Qed.

(** C10.  In the loop of [Game.run], the caller of [handle_key], started on
    a new game with a non-empty quote: whenever the screen was redrawn and
    a key is handed to [handle_key], the session on which the key is
    compared with the quote -- a finished session is reset first -- is not
    finished and has [0 <= position < len(quote.text)]; the read
    [quote.text[position]] returns a character and the call does not raise
    [IndexError].  At the head of the loop [position] equals
    [len(quote.text)] only when [stop] is set. *)
Theorem run_reads_quote_in_bounds mqw q g t key :
  Quote.text q <> [] ->
  run_reaches mqw (new_game q) g ->
  fst (run_redraw mqw t g) = Ok tt ->
  let g' := begin_typing (tick_env t) g in
  (stop g <> None -> position g' = 0 /\ incorrect g' = 0) /\
  stop g' = None /\
  0 <= position g' < len (Quote.text (quote g')) /\
  (exists c, str_index (Quote.text (quote g')) (position g') = Ok c) /\
  fst (handle_key (tick_env t) key g) <> Raise IndexError /\
  (position g = len (Quote.text (quote g)) -> stop g <> None).
Proof.
  intros Hq R Hdraw. cbv zeta.
  pose proof (run_reaches_loop_inv mqw _ g (new_game_loop_inv q Hq) R) as L.
  pose proof (run_redraw_returns mqw t g Hdraw L) as Hlow.
  destruct L as (Hinv & _ & _).
  pose proof (comparison_upper_bound (tick_env t) g Hinv) as C.
  cbv zeta in C. destruct C as ((_ & Hi & Hc & _) & Hstop & Hup).
  pose proof (begin_typing_fields (tick_env t) g) as B. cbv zeta in B.
  destruct B as (_ & _ & _ & _ & B).
  assert (Hrange : 0 <= position (begin_typing (tick_env t) g)
                   < len (Quote.text (quote (begin_typing (tick_env t) g)))).
  { split.
    - destruct B as [(_ & -> & _) | (Hs & -> & _)]; [lia|exact (Hlow Hs)].
    - destruct (Z.eq_dec (incorrect (begin_typing (tick_env t) g)) 0) as [E|E];
        [exact (Hup E)|lia]. }
  split.
  { intros Hs. destruct B as [(_ & Bp & Bi & _) | (Hn & _)];
      [split; assumption|congruence]. }
  split; [exact Hstop|]. split; [exact Hrange|].
  split; [exact (str_index_in_range _ _ Hrange)|].
  split.
  - intros H. apply handle_key_index_error in H.
    destruct (str_index_in_range _ _ Hrange) as [c Hc']. congruence.
  - intros Hp Hs. destruct Hinv as (_ & Hi' & Hc' & Ht).
    destruct (Z.eq_dec (incorrect g) 0) as [E|E];
      [specialize (Ht Hs E)|]; lia.
Qed.

Lemma run_reads_quote_in_bounds_witness :
  position (begin_typing env0 looped_a) = 1 /\
  (exists c, str_index (Quote.text (quote (begin_typing env0 looped_a)))
               (position (begin_typing env0 looped_a)) = Ok c) /\
  fst (handle_key env0 (PyStr (lit "b")) looped_a) <> Raise IndexError.
Proof.
  assert (Hq : Quote.text (quote_of "ab") <> []) by (vm_compute; discriminate).
  assert (Henv : env_ok env0) by (split; vm_compute; discriminate).
  assert (R : run_reaches 0 (new_game (quote_of "ab")) looped_a).
  { apply (run_iteration_reaches 0 _ (tick_reading (Wch (PyStr (lit "a"))))
             (new_game (quote_of "ab")) looped_a);
      [apply run_start|exact Henv|vm_compute; reflexivity]. }
  assert (Hdraw : fst (run_redraw 0 (tick_reading (Wch (PyStr (lit "b"))))
                         looped_a) = Ok tt) by (vm_compute; reflexivity).
  pose proof (run_reads_quote_in_bounds 0 (quote_of "ab") looped_a
                (tick_reading (Wch (PyStr (lit "b")))) (PyStr (lit "b"))
                Hq R Hdraw) as H.
  cbv zeta in H. destruct H as (_ & _ & _ & Hc & He & _).
  split; [vm_compute; reflexivity|]. split; [exact Hc|exact He].
Defined.

(** Where the loop stops instead: after ["a"], a left arrow and three
    backspaces on the quote ["ab"], [position] is -1 at the head of the
    loop, and the redraw raises [curses.error] before another key is
    read. *)
Example redraw_stops_below_start :
  let r := run 0 (map tick_reading below_start_readings)
             (new_game (quote_of "ab")) in
  fst r = Ok tt /\
  position (snd r) = -1 /\ incorrect (snd r) = 0 /\ run_browse (snd r) = 0 /\
  update_cells 80 0 0 (Quote.text (quote (snd r))) (-1) 0 =
    Ok [(2, 0); (2, -1); (2, -1)] /\
  run_iteration 0 (tick_reading (Wch (PyStr (lit "a")))) (snd r) =
    (Raise curses_error, snd r).
Proof.
  cbv zeta. split; [vm_compute; reflexivity|].
  split; [vm_compute; reflexivity|]. split; [vm_compute; reflexivity|].
  split; [vm_compute; reflexivity|]. split; vm_compute; reflexivity.
Qed.
